(** * A shallow embedding of the esp32-at driver (src/lib.rs, src/serial.rs)

    The driver talks to the module through two non-blocking byte endpoints
    ([embedded_hal::serial::Read<u8>] and [Write<u8>]).  Every transport call
    returns [nb::Result]: a value, [nb::Error::Other] or [nb::Error::WouldBlock].
    We model the endpoints by scripts of outcomes, the bytes written by a log,
    and thread the whole state through a small state/error monad, so that
    each [?] of the Rust code is a [bind] here. *)

From Stdlib Require Import List Bool Arith Lia NArith String Ascii.
From Stdlib Require Import Strings.Byte.
Import ListNotations.
Open Scope list_scope.

(** ** Results *)

(** [core::result::Result]. *)
Inductive result (T E : Type) : Type :=
| Ok : T -> result T E
| Err : E -> result T E.
Arguments Ok {T E} _.
Arguments Err {T E} _.

(** [nb::Error]. *)
Inductive nb_error (E : Type) : Type :=
| Other : E -> nb_error E
| WouldBlock : nb_error E.
Arguments Other {E} _.
Arguments WouldBlock {E}.

(** [core::str::Utf8Error]. *)
Record Utf8Error := mkUtf8Error {
  valid_up_to : nat;
  error_len : option nat
}.

(** [CommandSet]. *)
Inductive CommandSet := Wifi | TcpIp | Ble | ParticleArgonExt.

Section Driver.

(** The error types of the two transport halves ([RX::Error], [TX::Error]). *)
Context {RXE TXE : Type}.

(** [Error<RXE, TXE>]. *)
Inductive Error :=
| CommandSetNotSupported (command_set : CommandSet)
| UnexpectedResponse
| BufferOverflow
| UartRead (cause : RXE)
| UartWrite (cause : TXE)
| Utf8 (cause : Utf8Error).

(** ** Transport *)

(** What the receiving endpoint answers to successive [read()] calls.  An
    exhausted script means that no byte has arrived yet. *)
Inductive rx_event :=
| RxByte (b : byte)
| RxErr (e : RXE)
| RxBlock.

(** What the transmitting endpoint answers to successive [write(b)] calls.
    An exhausted script means the endpoint always has room. *)
Inductive tx_event :=
| TxAccept
| TxErr (e : TXE)
| TxBlock.

(** Observation of one transport call (ghost: it does not influence the
    driver, it only records what each [read]/[write] returned). *)
Inductive outcome := Completed | Failed | Blocked.

Record st := mkSt {
  rx : list rx_event;
  tx : list tx_event;
  written : list byte;
  log : list outcome
}.

(** ** The monad: [nb::Result<T, Error>] with the driver as state *)

Definition nb_result (T : Type) := result T (nb_error Error).

Definition M (T : Type) := st -> nb_result T * st.

Definition ret {T} (x : T) : M T := fun s => (Ok x, s).

Definition fail {T} (e : nb_error Error) : M T := fun s => (Err e, s).

(** [m?] followed by [k]. *)
Definition bind {T U} (m : M T) (k : T -> M U) : M U :=
  fun s => match m s with
           | (Ok x, s') => k x s'
           | (Err e, s') => (Err e, s')
           end.

Notation "x <- m ;; k" := (bind m (fun x => k))
  (at level 61, m at next level, right associativity).
Notation "m ;;; k" := (bind m (fun _ => k))
  (at level 61, right associativity).

Definition record_read (rest : list rx_event) (o : outcome) (s : st) : st :=
  mkSt rest (tx s) (written s) (log s ++ [o]).

(** [getc]: [self.rx.read().map_err(|nb| nb.map(|cause| Error::UartRead { cause }))]. *)
Definition getc : M byte := fun s =>
  match rx s with
  | [] => (Err WouldBlock, record_read [] Blocked s)
  | RxByte b :: rest => (Ok b, record_read rest Completed s)
  | RxErr e :: rest => (Err (Other (UartRead e)), record_read rest Failed s)
  | RxBlock :: rest => (Err WouldBlock, record_read rest Blocked s)
  end.

(** [putc]: [self.tx.write(byte).map_err(|nb| nb.map(|cause| Error::UartWrite { cause }))]. *)
Definition putc (b : byte) : M unit := fun s =>
  match tx s with
  | [] => (Ok tt, mkSt (rx s) [] (written s ++ [b]) (log s ++ [Completed]))
  | TxAccept :: rest => (Ok tt, mkSt (rx s) rest (written s ++ [b]) (log s ++ [Completed]))
  | TxErr e :: rest => (Err (Other (UartWrite e)), mkSt (rx s) rest (written s) (log s ++ [Failed]))
  | TxBlock :: rest => (Err WouldBlock, mkSt (rx s) rest (written s) (log s ++ [Blocked]))
  end.

(** ** Line I/O *)

(** [expect]: [for &expected_byte in data { let actual_byte = self.getc()?;
    if expected_byte != actual_byte { return Err(Other(UnexpectedResponse)) } }]. *)
Fixpoint expect (data : list byte) : M unit :=
  match data with
  | [] => ret tt
  | expected_byte :: data' =>
      actual_byte <- getc ;;
      if Byte.eqb expected_byte actual_byte then expect data'
      else fail (Other UnexpectedResponse)
  end.

Definition expect_response (response : string) : M unit :=
  expect (list_byte_of_string response).

Definition expect_ok_response : M unit := expect_response "OK".

Definition CR : byte := x0d.
Definition LF : byte := x0a.

(** [last == [b'\r', b'\n']]. *)
Definition is_crlf (l0 l1 : byte) : bool := Byte.eqb l0 CR && Byte.eqb l1 LF.

(** [heapless::Vec<u8, N>::push]: fails (handing the byte back) when full. *)
Definition vec_push (N : nat) (v : list byte) (x : byte) : result (list byte) byte :=
  if List.length v <? N then Ok (v ++ [x]) else Err x.

(** ** UTF-8 validation: [core::str::from_utf8] ([run_utf8_validation]) *)

Local Open Scope N_scope.

(** [utf8_char_width] for a byte [>= 0x80]. *)
Definition utf8_char_width (first : N) : N :=
  if (0xC2 <=? first) && (first <=? 0xDF) then 2
  else if (0xE0 <=? first) && (first <=? 0xEF) then 3
  else if (0xF0 <=? first) && (first <=? 0xF4) then 4
  else 0.

Definition in_range (lo hi x : N) : bool := (lo <=? x) && (x <=? hi).

(** [next!() as i8 >= -64] fails exactly for the bytes [0x80..=0xBF]. *)
Definition is_continuation (b : byte) : bool := in_range 0x80 0xBF (Byte.to_N b).

(** The second-byte match of a three-byte sequence. *)
Definition second_of_3 (first : N) (b : byte) : bool :=
  let n := Byte.to_N b in
  (N.eqb first 0xE0 && in_range 0xA0 0xBF n)
  || (in_range 0xE1 0xEC first && in_range 0x80 0xBF n)
  || (N.eqb first 0xED && in_range 0x80 0x9F n)
  || (in_range 0xEE 0xEF first && in_range 0x80 0xBF n).

(** The second-byte match of a four-byte sequence. *)
Definition second_of_4 (first : N) (b : byte) : bool :=
  let n := Byte.to_N b in
  (N.eqb first 0xF0 && in_range 0x90 0xBF n)
  || (in_range 0xF1 0xF3 first && in_range 0x80 0xBF n)
  || (N.eqb first 0xF4 && in_range 0x80 0x8F n).

(** [run_utf8_validation], [old_offset] being the index of the character
    under examination; [err!(None)] when the input ends inside a character. *)
Fixpoint run_utf8_validation (old_offset : nat) (v : list byte)
  : result unit Utf8Error :=
  let err l := Err (mkUtf8Error old_offset l) in
  match v with
  | [] => Ok tt
  | first :: rest =>
      let f := Byte.to_N first in
      if f <? 128 then run_utf8_validation (S old_offset) rest
      else
        let w := utf8_char_width f in
        if w =? 2 then
            match rest with
            | [] => err None
            | b1 :: rest1 =>
                if is_continuation b1 then run_utf8_validation (old_offset + 2)%nat rest1
                else err (Some 1%nat)
            end
        else if w =? 3 then
            match rest with
            | [] => err None
            | b1 :: rest1 =>
                if second_of_3 f b1 then
                  match rest1 with
                  | [] => err None
                  | b2 :: rest2 =>
                      if is_continuation b2 then run_utf8_validation (old_offset + 3)%nat rest2
                      else err (Some 2%nat)
                  end
                else err (Some 1%nat)
            end
        else if w =? 4 then
            match rest with
            | [] => err None
            | b1 :: rest1 =>
                if second_of_4 f b1 then
                  match rest1 with
                  | [] => err None
                  | b2 :: rest2 =>
                      if is_continuation b2 then
                        match rest2 with
                        | [] => err None
                        | b3 :: rest3 =>
                            if is_continuation b3 then run_utf8_validation (old_offset + 4)%nat rest3
                            else err (Some 3%nat)
                        end
                      else err (Some 2%nat)
                  end
                else err (Some 1%nat)
            end
        else err (Some 1%nat)
  end.

Local Close Scope N_scope.

(** [heapless::String::from_utf8]: the vector is kept when it is valid UTF-8. *)
Definition from_utf8 (v : list byte) : result (list byte) Utf8Error :=
  match run_utf8_validation 0 v with
  | Ok _ => Ok v
  | Err e => Err e
  end.

Definition utf8_valid (v : list byte) : bool :=
  match run_utf8_validation 0 v with Ok _ => true | Err _ => false end.

(** ** [read_line] and [ignore_line]

    Both loop until the two-byte window [last] equals CR LF; each turn reads
    one byte, so [S (length (rx s))] turns always reach a failing [getc].
    The loops are written with that amount of fuel. *)

(** One turn of [loop { last[0] = last[1]; last[1] = self.getc()?;
    if last == CRLF { break; } result.push(last[0]).or(Err(BufferOverflow))?; }],
    [last1] being [last[1]] before the turn. *)
Fixpoint read_line_loop (N : nat) (fuel : nat) (last1 : byte) (result : list byte)
  : M (list byte) :=
  match fuel with
  | O => fail WouldBlock
  | S fuel' =>
      let l0 := last1 in
      l1 <- getc ;;
      if is_crlf l0 l1 then ret result
      else match vec_push N result l0 with
           | Ok result' => read_line_loop N fuel' l1 result'
           | Err _ => fail (Other BufferOverflow)
           end
  end.

(** [read_line::<N>]: [last = [0; 2]], [result = Vec::new()], the loop, then
    [String::from_utf8(result).map_err(|cause| Error::Utf8 { cause })?]. *)
Definition read_line (N : nat) : M (list byte) := fun s =>
  (result <- read_line_loop N (S (List.length (rx s))) x00 [] ;;
   match from_utf8 result with
   | Ok line => ret line
   | Err cause => fail (Other (Utf8 cause))
   end) s.

(** [while last != CRLF { last[0] = last[1]; last[1] = self.getc()?; }]. *)
Fixpoint ignore_line_loop (fuel : nat) (l0 l1 : byte) : M unit :=
  if is_crlf l0 l1 then ret tt
  else match fuel with
       | O => fail WouldBlock
       | S fuel' => b <- getc ;; ignore_line_loop fuel' l1 b
       end.

Definition ignore_line : M unit := fun s =>
  ignore_line_loop (S (List.length (rx s))) x00 x00 s.

(** ** Writing commands *)

(** [write] / [Writer::write_str]: [putc] every byte, stopping at the first
    error, which is handed back unchanged. *)
Fixpoint write (data : list byte) : M unit :=
  match data with
  | [] => ret tt
  | b :: data' => putc b ;;; write data'
  end.

(** Decimal rendering of a [u32] by [Display]: digits from the least
    significant one, at most ten of them. *)
Definition digit (d : N) : byte :=
  match Byte.of_N (48 + d) with Some b => b | None => x30 end.

Fixpoint dec_digits (fuel : nat) (n : N) (acc : list byte) : list byte :=
  match fuel with
  | O => acc
  | S fuel' =>
      let acc' := digit (n mod 10) :: acc in
      if (n / 10 =? 0)%N then acc' else dec_digits fuel' (n / 10) acc'
  end.

Definition fmt_u32 (n : N) : list byte := dec_digits 10 n [].

(** The pieces of a [format_args!]: literal text and [{}] arguments. *)
Inductive fmt_piece :=
| Lit (s : string)
| ArgU32 (n : N).

Definition piece_bytes (p : fmt_piece) : list byte :=
  match p with
  | Lit s => list_byte_of_string s
  | ArgU32 n => fmt_u32 n
  end.

(** [write_command]: [Writer { .. }.write_fmt(command)], each piece going
    through [write_str]; the error kept in [error_ref] is returned. *)
Fixpoint write_command (command : list fmt_piece) : M unit :=
  match command with
  | [] => ret tt
  | p :: ps => write (piece_bytes p) ;;; write_command ps
  end.

Definition crlf : string := String "013"%char (String "010"%char EmptyString).

(** ** Commands *)

Record ModuleRevision := mkModuleRevision {
  at_version : list byte;
  sdk_version : list byte;
  compile_time : list byte
}.

(** [heapless::consts::U64]. *)
Definition U64 : nat := 64.

Definition test_startup : M unit :=
  write_command [Lit ("AT" ++ crlf)] ;;; expect_ok_response.

Definition restart : M unit :=
  write_command [Lit ("AT+RST" ++ crlf)] ;;; expect_ok_response.

Definition get_module_revision : M ModuleRevision :=
  write_command [Lit ("AT+GMR" ++ crlf)] ;;;
  at_version <- read_line U64 ;;
  sdk_version <- read_line U64 ;;
  compile_time <- read_line U64 ;;
  expect_ok_response ;;;
  ret (mkModuleRevision at_version sdk_version compile_time).

Definition enter_deep_sleep (wakeup_delay_ms : N) : M unit :=
  write_command [Lit "AT+GSLP="; ArgU32 wakeup_delay_ms; Lit crlf] ;;;
  ignore_line ;;;
  expect_ok_response.

Definition factory_reset : M unit :=
  write_command [Lit ("AT+RESTORE" ++ crlf)] ;;; expect_ok_response.

End Driver.

(** ** Serial configuration vocabulary (src/serial.rs) *)

(** [BaudRate]; [usize] is modelled by [N]. *)
Inductive BaudRate :=
| Baud110 | Baud300 | Baud600 | Baud1200 | Baud2400 | Baud4800 | Baud9600
| Baud19200 | Baud38400 | Baud57600 | Baud115200
| BaudOther (n : N).

(** [BaudRate::from_speed]. *)
Definition from_speed (speed : N) : BaudRate :=
  if (speed =? 110)%N then Baud110
  else if (speed =? 300)%N then Baud300
  else if (speed =? 600)%N then Baud600
  else if (speed =? 1200)%N then Baud1200
  else if (speed =? 2400)%N then Baud2400
  else if (speed =? 4800)%N then Baud4800
  else if (speed =? 9600)%N then Baud9600
  else if (speed =? 19200)%N then Baud19200
  else if (speed =? 38400)%N then Baud38400
  else if (speed =? 57600)%N then Baud57600
  else if (speed =? 115200)%N then Baud115200
  else BaudOther speed.

(** [BaudRate::speed]. *)
Definition speed (b : BaudRate) : N :=
  match b with
  | Baud110 => 110
  | Baud300 => 300
  | Baud600 => 600
  | Baud1200 => 1200
  | Baud2400 => 2400
  | Baud4800 => 4800
  | Baud9600 => 9600
  | Baud19200 => 19200
  | Baud38400 => 38400
  | Baud57600 => 57600
  | Baud115200 => 115200
  | BaudOther n => n
  end.

(** The standard (enumerated) rates. *)
Definition standard_rates : list BaudRate :=
  [Baud110; Baud300; Baud600; Baud1200; Baud2400; Baud4800; Baud9600;
   Baud19200; Baud38400; Baud57600; Baud115200].

(** ** Vocabulary of the statements *)

(** A byte list with no adjacent CR LF pair. *)
Fixpoint no_crlf (l : list byte) : bool :=
  match l with
  | a :: ((b :: _) as t) => negb (is_crlf a b) && no_crlf t
  | _ => true
  end.

(** Reference reading of "the decimal rendering of [n]": ASCII digits, no
    leading zero except for [0] itself, denoting [n]. *)
Definition is_digit (b : byte) : Prop := (48 <= Byte.to_N b <= 57)%N.

Definition decimal_value (l : list byte) : N :=
  fold_left (fun a d => a * 10 + (Byte.to_N d - 48))%N l 0%N.

Definition is_decimal_rendering (l : list byte) (n : N) : Prop :=
  l <> [] /\ Forall is_digit l
  /\ match l with d :: _ :: _ => Byte.to_N d <> 48%N | _ => True end
  /\ decimal_value l = n.

(** The new part [t] of the transport log of a run ending in [r] passes
    would-block through: the run ends in would-block exactly when a transport
    call blocked, and no transport call follows a blocked one. *)
Definition passes_would_block {RXE TXE T} (r : @nb_result RXE TXE T) (t : list outcome) : Prop :=
  (r = Err WouldBlock <-> In Blocked t)
  /\ (forall t1 t2, t = t1 ++ Blocked :: t2 -> t2 = []).

Definition clean_at {RXE TXE T} (m : @M RXE TXE T) (s : @st RXE TXE) : Prop :=
  exists t, log (snd (m s)) = log s ++ t /\ passes_would_block (fst (m s)) t.

Definition nb_transparent {RXE TXE T} (m : @M RXE TXE T) : Prop :=
  forall s, clean_at m s.

(** Test fixtures: a receive script of the bytes of a string, and a fresh
    driver state. *)
Definition feed {RXE} (s : string) : list (@rx_event RXE) :=
  map RxByte (list_byte_of_string s).

Definition start {RXE TXE} (r : list (@rx_event RXE)) : @st RXE TXE :=
  mkSt r [] [] [].

Definition gmr_reply : string :=
  ("v1" ++ crlf ++ "v2" ++ crlf ++ "v3" ++ crlf ++ "OK" ++ crlf)%string.

Definition ok_reply : string := ("OK" ++ crlf)%string.

(** * Properties *)

Section Proofs.

Context {RXE TXE : Type}.

(** ** Concrete exchanges *)

(** C1 (code evaluated at the documented exchange).  After [AT+GMR], the
    reply [v1\r\nv2\r\nv3\r\nOK\r\n] gives a revision whose fields each start
    with a NUL byte: [read_line] pushes [last[0]], which is [0] on the first
    turn. *)
Theorem get_module_revision_gmr_fields :
  fst (@get_module_revision RXE TXE (start (feed gmr_reply)))
  = Ok (mkModuleRevision [x00; "v"%byte; "1"%byte]
                         [x00; "v"%byte; "2"%byte]
                         [x00; "v"%byte; "3"%byte]).
Proof. reflexivity. Qed.

(** C2 (code evaluated at the documented replies).  Every command succeeds
    on its documented reply, and the CR LF that ends the [OK] status line is
    left unread, since [expect_ok_response] only matches [OK]. *)
Theorem commands_leave_status_crlf_unread :
  let crlf_left {T} (m : @M RXE TXE T) (reply : string) :=
    (exists v, fst (m (start (feed reply))) = Ok v)
    /\ rx (snd (m (start (feed reply)))) = feed crlf in
  crlf_left test_startup ok_reply
  /\ crlf_left restart ok_reply
  /\ crlf_left get_module_revision gmr_reply
  /\ crlf_left (enter_deep_sleep 1500) (crlf ++ ok_reply)%string
  /\ crlf_left factory_reset ok_reply.
Proof.
  cbv zeta.
  repeat split; eexists; reflexivity.
Qed.

(** C3 (code evaluated at [OK\r\nOK\r\n]).  The first [test_startup]
    succeeds; the second then reads the CR left over by the first and fails
    with [UnexpectedResponse]. *)
Theorem test_startup_twice :
  let s0 := @start RXE TXE (feed (ok_reply ++ ok_reply)) in
  fst (test_startup s0) = Ok tt
  /\ fst (test_startup (snd (test_startup s0))) = Err (Other UnexpectedResponse).
Proof. split; reflexivity. Qed.

(** ** Monad and transport lemmas *)

Lemma bind_ok {T U} (m : @M RXE TXE T) (k : T -> M U) s x s' :
  m s = (Ok x, s') -> bind m k s = k x s'.
Proof. intros H; unfold bind; rewrite H; reflexivity. Qed.

Lemma bind_err {T U} (m : @M RXE TXE T) (k : T -> M U) s e s' :
  m s = (Err e, s') -> bind m k s = (Err e, s').
Proof. intros H; unfold bind; rewrite H; reflexivity. Qed.

Lemma getc_byte (s : @st RXE TXE) b rest :
  rx s = RxByte b :: rest -> getc s = (Ok b, record_read rest Completed s).
Proof. intros H; unfold getc; rewrite H; reflexivity. Qed.

Lemma eqb_refl_byte (b : byte) : Byte.eqb b b = true.
Proof. apply Byte.byte_dec_lb; reflexivity. Qed.

Lemma eqb_neq_byte (a b : byte) : a <> b -> Byte.eqb a b = false.
Proof.
  intros H; destruct (Byte.eqb a b) eqn:E; [|reflexivity].
  apply Byte.byte_dec_bl in E; contradiction.
Qed.

(** [expect] against a receive script that starts with the expected bytes
    [pre], then a differing byte. *)
Lemma expect_mismatch_run (pre : list byte) (d b : byte) (data' : list byte)
      (rest : list (@rx_event RXE)) (s : @st RXE TXE) :
  d <> b -> rx s = map RxByte (pre ++ [b]) ++ rest ->
  fst (expect (pre ++ d :: data') s) = Err (Other UnexpectedResponse)
  /\ rx (snd (expect (pre ++ d :: data') s)) = rest.
Proof.
  revert s; induction pre as [|a pre IH]; intros s Hdb Hrx.
  - simpl in Hrx |- *.
    rewrite (bind_ok _ _ s b _ (getc_byte s b rest Hrx)).
    rewrite (eqb_neq_byte d b Hdb). split; reflexivity.
  - simpl in Hrx |- *.
    rewrite (bind_ok _ _ s a _ (getc_byte s a _ Hrx)).
    rewrite eqb_refl_byte. apply IH; [exact Hdb | reflexivity].
Qed.

(** ** C5: [expect] stops at the first differing byte *)

(** C5.  For every expected sequence [pre ++ d :: data'] and reply
    [pre ++ b :: ...] with [d <> b], [expect] fails with [UnexpectedResponse]
    having consumed exactly [pre] and [b]; in particular [test_startup]
    answered by [ERROR\r\n] fails on the [E], leaving [RROR\r\n] unread. *)
Theorem expect_fails_at_first_mismatch (pre : list byte) (d b : byte) (data' : list byte)
      (rest : list (@rx_event RXE)) (s : @st RXE TXE) :
  d <> b -> rx s = map RxByte (pre ++ [b]) ++ rest ->
  (fst (expect (pre ++ d :: data') s) = Err (Other UnexpectedResponse)
   /\ rx (snd (expect (pre ++ d :: data') s)) = rest)
  /\ (fst (@test_startup RXE TXE (start (feed ("ERROR" ++ crlf))))
        = Err (Other UnexpectedResponse)
      /\ rx (snd (@test_startup RXE TXE (start (feed ("ERROR" ++ crlf)))))
         = feed ("RROR" ++ crlf)).
Proof.
  intros Hdb Hrx. split.
  - exact (expect_mismatch_run pre d b data' rest s Hdb Hrx).
  - split; reflexivity.
Qed.

(** ** [read_line] *)

Lemma vec_push_ok N (v : list byte) x :
  List.length v < N -> vec_push N v x = Ok (v ++ [x]).
Proof. intros H; unfold vec_push; rewrite (proj2 (Nat.ltb_lt _ _) H); reflexivity. Qed.

Lemma vec_push_full N (v : list byte) x :
  List.length v = N -> vec_push N v x = Err x.
Proof.
  intros H; unfold vec_push.
  rewrite (proj2 (Nat.ltb_ge _ _) (Nat.eq_le_incl _ _ (eq_sym H))); reflexivity.
Qed.

Lemma is_crlf_CR (a : byte) : is_crlf a CR = false.
Proof. unfold is_crlf; apply andb_false_r. Qed.

Lemma no_crlf_cons2 a b l :
  no_crlf (a :: b :: l) = true -> is_crlf a b = false /\ no_crlf (b :: l) = true.
Proof.
  simpl; intros H; apply andb_prop in H as [H1 H2].
  split; [apply negb_true_iff; exact H1 | exact H2].
Qed.

(** The loop of [read_line] over a line that is too long: no CR LF among
    the bytes [pre], and [pre] one byte more than the room left. *)
Lemma read_line_loop_overflow N (pre : list byte) (rest : list (@rx_event RXE)) :
  forall fuel last1 acc (s : @st RXE TXE),
  rx s = map RxByte pre ++ rest -> pre <> [] -> no_crlf (last1 :: pre) = true ->
  List.length acc + List.length pre = S N -> List.length pre <= fuel ->
  fst (read_line_loop N fuel last1 acc s) = Err (Other BufferOverflow)
  /\ rx (snd (read_line_loop N fuel last1 acc s)) = rest.
Proof.
  induction pre as [|b pre IH]; intros fuel last1 acc s Hrx Hne Hno Hlen Hfuel;
    [contradiction|].
  destruct fuel as [|fuel]; [simpl in Hfuel; lia|].
  apply no_crlf_cons2 in Hno as [Hb Hno].
  cbn [read_line_loop].
  rewrite (bind_ok _ _ s b _ (getc_byte s b _ Hrx)), Hb.
  destruct pre as [|c pre'].
  - simpl in Hlen. rewrite (vec_push_full N acc last1) by lia.
    split; reflexivity.
  - simpl in Hlen. rewrite (vec_push_ok N acc last1) by lia.
    apply IH; [reflexivity | discriminate | exact Hno | | simpl in *; lia].
    rewrite length_app; simpl in *; lia.
Qed.

(** The loop of [read_line] over [pre] then CR LF, with room for every byte
    it pushes. *)
Lemma read_line_loop_line N (pre : list byte) (rest : list (@rx_event RXE)) :
  forall fuel last1 acc (s : @st RXE TXE),
  rx s = map RxByte (pre ++ [CR; LF]) ++ rest -> no_crlf (last1 :: pre) = true ->
  List.length acc + List.length pre < N -> List.length pre + 2 <= fuel ->
  fst (read_line_loop N fuel last1 acc s) = Ok (acc ++ last1 :: pre)
  /\ rx (snd (read_line_loop N fuel last1 acc s)) = rest.
Proof.
  induction pre as [|b pre IH]; intros fuel last1 acc s Hrx Hno Hlen Hfuel.
  - destruct fuel as [|[|fuel]]; [simpl in Hfuel; lia|simpl in Hfuel; lia|].
    cbn [read_line_loop].
    rewrite (bind_ok _ _ s CR _ (getc_byte s CR _ Hrx)), is_crlf_CR.
    simpl in Hlen. rewrite (vec_push_ok N acc last1) by lia.
    cbn [read_line_loop].
    erewrite bind_ok by (apply getc_byte; reflexivity).
    split; reflexivity.
  - destruct fuel as [|fuel]; [simpl in Hfuel; lia|].
    apply no_crlf_cons2 in Hno as [Hb Hno].
    cbn [read_line_loop].
    rewrite (bind_ok _ _ s b _ (getc_byte s b _ Hrx)), Hb.
    simpl in Hlen. rewrite (vec_push_ok N acc last1) by lia.
    replace (acc ++ last1 :: b :: pre) with ((acc ++ [last1]) ++ b :: pre)
      by (rewrite <- app_assoc; reflexivity).
    apply IH; [reflexivity | exact Hno | | simpl in *; lia].
    rewrite length_app; simpl; lia.
Qed.

Lemma read_line_unfold N (s : @st RXE TXE) :
  read_line N s =
  bind (read_line_loop N (S (List.length (rx s))) x00 [])
       (fun result => match from_utf8 result with
                      | Ok line => ret line
                      | Err cause => fail (Other (Utf8 cause))
                      end) s.
Proof. reflexivity. Qed.

(** ** C4: a line longer than the buffer overflows before its end *)

(** C4.  If the first [N + 1] bytes of the reply contain no CR LF pair (the
    line is longer than the capacity [N]), [read_line::<N>] fails with
    [BufferOverflow] after reading exactly those bytes, so before any CR LF;
    the error carries no bytes. *)
Theorem read_line_overflows (N : nat) (pre : list byte) (rest : list (@rx_event RXE))
      (s : @st RXE TXE) :
  rx s = map RxByte pre ++ rest -> List.length pre = S N -> no_crlf pre = true ->
  fst (read_line N s) = Err (Other BufferOverflow) /\ rx (snd (read_line N s)) = rest.
Proof.
  intros Hrx Hlen Hno.
  assert (Hne : pre <> []) by (intros ->; discriminate).
  assert (Hno0 : no_crlf (x00 :: pre) = true).
  { destruct pre as [|b pre]; [contradiction|]. simpl. exact Hno. }
  assert (Hf : List.length pre <= S (List.length (rx s))).
  { rewrite Hrx, length_app, length_map; lia. }
  destruct (read_line_loop_overflow N pre rest _ x00 [] s Hrx Hne Hno0 Hlen Hf)
    as [H1 H2].
  rewrite read_line_unfold.
  destruct (read_line_loop N (S (List.length (rx s))) x00 [] s) as [r s'] eqn:E.
  simpl in H1, H2; subst r.
  rewrite (bind_err _ _ s _ s' E). split; [reflexivity | exact H2].
Qed.

(** ** C7: UTF-8 validation of the accumulated line *)

Definition utf8_ok (r : result unit Utf8Error) : bool :=
  match r with Ok _ => true | Err _ => false end.

(** Whether validation succeeds does not depend on the starting offset. *)
Lemma run_utf8_validation_offset n :
  forall (v : list byte) o1 o2, List.length v <= n ->
  utf8_ok (run_utf8_validation o1 v) = utf8_ok (run_utf8_validation o2 v).
Proof.
  induction n as [|n IH]; intros v o1 o2 Hlen.
  - destruct v; [reflexivity | simpl in Hlen; lia].
  - destruct v as [|first rest]; [reflexivity|].
    simpl in Hlen. cbn [run_utf8_validation].
    repeat match goal with
           | |- context [if ?c then _ else _] => destruct c
           | |- context [match ?l with [] => _ | _ :: _ => _ end] =>
               is_var l; destruct l
           end;
      try reflexivity; apply IH; simpl in *; lia.
Qed.

Lemma utf8_valid_nul (content : list byte) :
  utf8_valid (x00 :: content) = utf8_valid content.
Proof.
  unfold utf8_valid.
  change (run_utf8_validation 0 (x00 :: content))
    with (run_utf8_validation 1 content).
  pose proof (run_utf8_validation_offset (List.length content) content 1 0 (le_n _)) as H.
  destruct (run_utf8_validation 1 content), (run_utf8_validation 0 content);
    simpl in H; congruence.
Qed.

(** C7.  For a line [content] ended by CR LF, with no CR LF inside and with
    room in the buffer for the bytes [read_line::<N>] accumulates (the
    initial [last[0]] and [content]), [read_line] fails with a [Utf8] error
    when those bytes are not valid UTF-8, and returns them when they are. *)
Theorem read_line_utf8 (N : nat) (content : list byte) (rest : list (@rx_event RXE))
      (s : @st RXE TXE) :
  rx s = map RxByte (content ++ [CR; LF]) ++ rest -> no_crlf content = true ->
  List.length (x00 :: content) <= N ->
  (utf8_valid (x00 :: content) = false ->
     exists cause, fst (read_line N s) = Err (Other (Utf8 cause)))
  /\ (utf8_valid (x00 :: content) = true -> fst (read_line N s) = Ok (x00 :: content))
  /\ utf8_valid (x00 :: content) = utf8_valid content.
Proof.
  intros Hrx Hno Hlen.
  assert (Hno0 : no_crlf (x00 :: content) = true).
  { destruct content as [|b content]; [reflexivity|]. simpl. exact Hno. }
  assert (Hf : List.length content + 2 <= S (List.length (rx s))).
  { rewrite Hrx, length_app, length_map, length_app; simpl; lia. }
  simpl in Hlen.
  destruct (read_line_loop_line N content rest _ x00 [] s Hrx Hno0 ltac:(simpl; lia) Hf)
    as [H1 _].
  rewrite read_line_unfold.
  destruct (read_line_loop N (S (List.length (rx s))) x00 [] s) as [r s'] eqn:E.
  simpl in H1; subst r.
  rewrite (bind_ok _ _ s _ s' E).
  split; [|split; [|exact (utf8_valid_nul content)]];
    unfold utf8_valid, from_utf8;
    destruct (run_utf8_validation 0 (x00 :: content)) as [[]|cause];
    intros H; try discriminate; [exists cause; reflexivity | reflexivity].
Qed.

(** ** C10: [ignore_line] only fails on the transport *)

Lemma ignore_line_loop_outcomes fuel :
  forall l0 l1 (s : @st RXE TXE),
  let r := fst (ignore_line_loop fuel l0 l1 s) in
  r = Ok tt \/ r = Err WouldBlock \/ exists e, r = Err (Other (UartRead e)).
Proof.
  induction fuel as [|fuel IH]; intros l0 l1 s r; subst r; cbn [ignore_line_loop].
  - destruct (is_crlf l0 l1); simpl; auto.
  - destruct (is_crlf l0 l1); [simpl; auto|].
    unfold bind, getc.
    destruct (rx s) as [|[b|e|] rest]; simpl; [auto | apply IH | eauto | auto].
Qed.

(** C10.  Whatever the receive script, [ignore_line] returns [Ok], would-block,
    or a [UartRead] error: never [BufferOverflow] nor a [Utf8] error. *)
Theorem ignore_line_only_transport_errors (s : @st RXE TXE) :
  fst (ignore_line s) = Ok tt \/ fst (ignore_line s) = Err WouldBlock
  \/ exists e, fst (ignore_line s) = Err (Other (UartRead e)).
Proof. apply ignore_line_loop_outcomes. Qed.

(** ** C6: the [AT+GSLP] command line *)

Lemma write_accepting (data : list byte) :
  forall s : @st RXE TXE, tx s = [] ->
  write data s = (Ok tt, mkSt (rx s) [] (written s ++ data)
                              (log s ++ repeat Completed (List.length data))).
Proof.
  induction data as [|b data IH]; intros s Htx.
  - simpl. rewrite !app_nil_r. destruct s; simpl in *; subst; reflexivity.
  - simpl write. unfold bind at 1. unfold putc at 1. rewrite Htx.
    rewrite IH by reflexivity. simpl.
    rewrite <- !app_assoc. reflexivity.
Qed.

Lemma write_command_accepting (command : list fmt_piece) :
  forall s : @st RXE TXE, tx s = [] ->
  write_command command s =
  (Ok tt, mkSt (rx s) [] (written s ++ List.concat (map piece_bytes command))
               (log s ++ repeat Completed (List.length (List.concat (map piece_bytes command))))).
Proof.
  induction command as [|p ps IH]; intros s Htx.
  - simpl. rewrite !app_nil_r. destruct s; simpl in *; subst; reflexivity.
  - simpl write_command.
    rewrite (bind_ok _ _ s tt _ (write_accepting (piece_bytes p) s Htx)).
    rewrite IH by reflexivity. simpl.
    rewrite length_app, repeat_app, <- !app_assoc. reflexivity.
Qed.

Lemma digit_to_N (d : N) : (d < 10)%N -> Byte.to_N (digit d) = (48 + d)%N.
Proof.
  intros H; unfold digit.
  destruct (Byte.of_N (48 + d)) eqn:E.
  - apply Byte.to_of_N in E; exact E.
  - apply Byte.of_N_None_iff in E; lia.
Qed.

Lemma decimal_rendering_digit (n : N) :
  (n < 10)%N -> is_decimal_rendering [digit n] n.
Proof.
  intros H; unfold is_decimal_rendering, decimal_value, is_digit; simpl.
  rewrite digit_to_N by exact H.
  split; [discriminate|].
  split; [constructor; [cbv beta; rewrite digit_to_N by exact H; lia | constructor]|].
  split; [exact I | lia].
Qed.

Lemma dec_digits_S f n acc :
  dec_digits (S f) n acc =
  if (n / 10 =? 0)%N then digit (n mod 10) :: acc
  else dec_digits f (n / 10) (digit (n mod 10) :: acc).
Proof. reflexivity. Qed.

Lemma dec_digits_rendering (f : nat) :
  forall (n : N) (acc : list byte), (n < 10 ^ N.of_nat (S f))%N ->
  exists ds, dec_digits (S f) n acc = ds ++ acc /\ is_decimal_rendering ds n.
Proof.
  induction f as [|f IH]; intros n acc Hn;
    pose proof (N.div_mod n 10 ltac:(discriminate)) as Hdm;
    pose proof (N.mod_lt n 10 ltac:(discriminate)) as Hmod;
    rewrite dec_digits_S; destruct (n / 10 =? 0)%N eqn:E.
  - apply N.eqb_eq in E. exists [digit (n mod 10)]. split; [reflexivity|].
    replace n with (n mod 10)%N at 2 by lia. apply decimal_rendering_digit; exact Hmod.
  - apply N.eqb_neq in E. simpl in Hn.
    assert (n / 10 = 0)%N by (apply N.div_small; lia). contradiction.
  - apply N.eqb_eq in E. exists [digit (n mod 10)]. split; [reflexivity|].
    replace n with (n mod 10)%N at 2 by lia. apply decimal_rendering_digit; exact Hmod.
  - apply N.eqb_neq in E.
    assert (Hq : (n / 10 < 10 ^ N.of_nat (S f))%N).
    { apply N.Div0.div_lt_upper_bound.
      rewrite Nat2N.inj_succ, N.pow_succ_r' in Hn. exact Hn. }
    destruct (IH (n / 10)%N (digit (n mod 10) :: acc) Hq) as [ds [Hds Hr]].
    exists (ds ++ [digit (n mod 10)]).
    split; [rewrite Hds, <- app_assoc; reflexivity|].
    destruct Hr as [Hne [Hdig [Hlead Hval]]].
    split; [destruct ds; discriminate|].
    split.
    { apply Forall_app; split; [exact Hdig|].
      constructor; [|constructor].
      unfold is_digit; rewrite digit_to_N by exact Hmod.
      clear - Hmod; revert Hmod; generalize (n mod 10)%N; intros m Hm; lia. }
    split.
    + destruct ds as [|d [|d' ds]]; [contradiction| |exact Hlead].
      simpl. unfold decimal_value in Hval; simpl in Hval. lia.
    + unfold decimal_value in *. rewrite fold_left_app, Hval; simpl.
      rewrite digit_to_N by exact Hmod.
      clear - Hdm; revert Hdm; generalize (n / 10)%N (n mod 10)%N; intros q m Hdm; lia.
Qed.

Lemma fmt_u32_rendering (n : N) :
  (n < 2 ^ 32)%N -> is_decimal_rendering (fmt_u32 n) n.
Proof.
  intros H.
  destruct (dec_digits_rendering 9 n [] ltac:(simpl; lia)) as [ds [Hds Hr]].
  unfold fmt_u32. rewrite Hds, app_nil_r. exact Hr.
Qed.

(** C6.  With a transmitter that accepts every byte, [enter_deep_sleep ms]
    first writes exactly [AT+GSLP=], the decimal rendering of [ms] and CR LF,
    leaving the receive script untouched, and only then runs its reads
    ([ignore_line], then [expect_ok_response]) from that state; for [1500]
    the line is [AT+GSLP=1500\r\n]. *)
Theorem enter_deep_sleep_command_line (ms : N) (s : @st RXE TXE) :
  (ms < 2 ^ 32)%N -> tx s = [] ->
  let line := list_byte_of_string "AT+GSLP=" ++ fmt_u32 ms ++ [CR; LF] in
  let s1 := mkSt (rx s) [] (written s ++ line)
                 (log s ++ repeat Completed (List.length line)) in
  write_command [Lit "AT+GSLP="; ArgU32 ms; Lit crlf] s = (Ok tt, s1)
  /\ enter_deep_sleep ms s = bind ignore_line (fun _ => expect_ok_response) s1
  /\ is_decimal_rendering (fmt_u32 ms) ms
  /\ list_byte_of_string "AT+GSLP=" ++ fmt_u32 1500 ++ [CR; LF]
     = list_byte_of_string ("AT+GSLP=1500" ++ crlf).
Proof.
  intros Hms Htx line s1.
  assert (Hw : write_command [Lit "AT+GSLP="; ArgU32 ms; Lit crlf] s = (Ok tt, s1)).
  { rewrite write_command_accepting by exact Htx.
    assert (Hl : List.concat (map piece_bytes [Lit "AT+GSLP="; ArgU32 ms; Lit crlf]) = line).
    { unfold line; cbn [List.concat map piece_bytes]. rewrite app_nil_r. reflexivity. }
    rewrite Hl. reflexivity. }
  split; [exact Hw|].
  split; [unfold enter_deep_sleep; exact (bind_ok _ _ s tt s1 Hw)|].
  split; [apply fmt_u32_rendering; exact Hms | reflexivity].
Qed.

(** ** C8: would-block is handed to the caller unchanged *)

Lemma pwb_nil {T} (r : @nb_result RXE TXE T) :
  r <> Err WouldBlock -> passes_would_block r [].
Proof.
  intros H; split; [split; [contradiction | intros []]|].
  intros t1 t2 E; destruct t1; discriminate.
Qed.

Lemma pwb_single {T} (r : @nb_result RXE TXE T) o :
  o <> Blocked -> r <> Err WouldBlock -> passes_would_block r [o].
Proof.
  intros Ho Hr; split; [split; [contradiction | intros [E|[]]; congruence]|].
  intros t1 t2 E; destruct t1 as [|a [|b t1]]; simpl in E; inversion E; congruence.
Qed.

Lemma pwb_blocked {T} : passes_would_block (Err WouldBlock : @nb_result RXE TXE T) [Blocked].
Proof.
  split; [split; [intros _; left; reflexivity | reflexivity]|].
  intros t1 t2 E; destruct t1 as [|a [|b t1]]; simpl in E; inversion E; auto.
Qed.

Lemma blocked_split_right (t1 t2 u1 u2 : list outcome) :
  ~ In Blocked t1 -> t1 ++ t2 = u1 ++ Blocked :: u2 ->
  exists u1', t2 = u1' ++ Blocked :: u2.
Proof.
  revert u1; induction t1 as [|a t1 IH]; intros u1 Hn E.
  - exists u1; exact E.
  - destruct u1 as [|b u1]; simpl in E; inversion E; subst.
    + exfalso; apply Hn; left; reflexivity.
    + apply (IH u1); [intros H; apply Hn; right; exact H | assumption].
Qed.

Lemma clean_ret {T} (x : T) (s : @st RXE TXE) : clean_at (ret x) s.
Proof. exists []; split; [rewrite app_nil_r; reflexivity | apply pwb_nil; discriminate]. Qed.

Lemma clean_fail_other {T} e (s : @st RXE TXE) : clean_at (T:=T) (fail (Other e)) s.
Proof. exists []; split; [rewrite app_nil_r; reflexivity | apply pwb_nil; discriminate]. Qed.

Lemma clean_getc (s : @st RXE TXE) : clean_at getc s.
Proof.
  unfold clean_at, getc.
  destruct (rx s) as [|[b|e|] rest]; simpl; eexists; (split; [reflexivity|]);
    first [apply pwb_blocked | apply pwb_single; discriminate].
Qed.

Lemma clean_putc b (s : @st RXE TXE) : clean_at (putc b) s.
Proof.
  unfold clean_at, putc.
  destruct (tx s) as [|[|e|] rest]; simpl; eexists; (split; [reflexivity|]);
    first [apply pwb_blocked | apply pwb_single; discriminate].
Qed.

Lemma clean_bind {T U} (m : @M RXE TXE T) (k : T -> M U) s :
  clean_at m s ->
  (forall x s', m s = (Ok x, s') -> clean_at (k x) s') ->
  clean_at (bind m k) s.
Proof.
  intros [t1 [Hlog1 [Hwb1 Hlast1]]] Hk. unfold clean_at, bind.
  destruct (m s) as [[x|e] s'] eqn:E; simpl in *.
  - destruct (Hk x s' eq_refl) as [t2 [Hlog2 [Hwb2 Hlast2]]].
    assert (Hn1 : ~ In Blocked t1) by (intros H; apply Hwb1 in H; discriminate).
    exists (t1 ++ t2). split; [rewrite Hlog2, Hlog1, app_assoc; reflexivity|].
    split.
    + rewrite Hwb2, in_app_iff. tauto.
    + intros u1 u2 Eu. destruct (blocked_split_right t1 t2 u1 u2 Hn1 Eu) as [u1' Et2].
      exact (Hlast2 u1' u2 Et2).
  - exists t1. split; [exact Hlog1|]. split; [|exact Hlast1].
    split; intros H.
    + apply Hwb1. inversion H; subst; reflexivity.
    + apply Hwb1 in H. inversion H; reflexivity.
Qed.

Lemma getc_ok_rx (s s' : @st RXE TXE) x :
  getc s = (Ok x, s') -> S (List.length (rx s')) = List.length (rx s).
Proof.
  unfold getc; destruct (rx s) as [|[b|e|] rest]; intros H; inversion H; reflexivity.
Qed.

Lemma transparent_expect data : nb_transparent (@expect RXE TXE data).
Proof.
  induction data as [|b data IH]; intros s; simpl.
  - apply clean_ret.
  - apply clean_bind; [apply clean_getc|]. intros x s' _.
    destruct (Byte.eqb b x); [apply IH | apply clean_fail_other].
Qed.

Lemma transparent_write data : nb_transparent (@write RXE TXE data).
Proof.
  induction data as [|b data IH]; intros s; simpl.
  - apply clean_ret.
  - apply clean_bind; [apply clean_putc | intros; apply IH].
Qed.

Lemma transparent_write_command command : nb_transparent (@write_command RXE TXE command).
Proof.
  induction command as [|p ps IH]; intros s; simpl.
  - apply clean_ret.
  - apply clean_bind; [apply transparent_write | intros; apply IH].
Qed.

Lemma transparent_bind {T U} (m : @M RXE TXE T) (k : T -> M U) :
  nb_transparent m -> (forall x, nb_transparent (k x)) -> nb_transparent (bind m k).
Proof. intros Hm Hk s; apply clean_bind; [apply Hm | intros; apply Hk]. Qed.

Lemma clean_read_line_loop N fuel :
  forall last1 acc (s : @st RXE TXE), List.length (rx s) < fuel ->
  clean_at (read_line_loop N fuel last1 acc) s.
Proof.
  induction fuel as [|fuel IH]; intros last1 acc s Hf; [lia|].
  cbn [read_line_loop]. apply clean_bind; [apply clean_getc|].
  intros l1 s' E. apply getc_ok_rx in E.
  destruct (is_crlf last1 l1); [apply clean_ret|].
  destruct (vec_push N acc last1); [apply IH; lia | apply clean_fail_other].
Qed.

Lemma transparent_read_line N : nb_transparent (@read_line RXE TXE N).
Proof.
  intros s. unfold clean_at. rewrite !read_line_unfold. fold (clean_at
    (bind (read_line_loop N (S (List.length (rx s))) x00 [])
       (fun result => match from_utf8 result with
                      | Ok line => ret line
                      | Err cause => fail (Other (Utf8 cause))
                      end)) s).
  apply clean_bind; [apply clean_read_line_loop; lia|].
  intros r s' _. destruct (from_utf8 r); [apply clean_ret | apply clean_fail_other].
Qed.

Lemma clean_ignore_line_loop fuel :
  forall l0 l1 (s : @st RXE TXE), List.length (rx s) < fuel ->
  clean_at (ignore_line_loop fuel l0 l1) s.
Proof.
  induction fuel as [|fuel IH]; intros l0 l1 s Hf; [lia|].
  cbn [ignore_line_loop]. destruct (is_crlf l0 l1); [apply clean_ret|].
  apply clean_bind; [apply clean_getc|].
  intros b s' E. apply getc_ok_rx in E. apply IH; lia.
Qed.

Lemma transparent_ignore_line : nb_transparent (@ignore_line RXE TXE).
Proof. intros s. apply clean_ignore_line_loop. lia. Qed.

(** Decompose a command into its transport primitives. *)
Local Ltac transparent_steps :=
  repeat first
    [ apply transparent_write_command
    | apply transparent_read_line
    | apply transparent_ignore_line
    | apply transparent_expect
    | apply transparent_bind; [| intros ]
    | intros s; apply clean_ret ].

(** C8.  Every command passes would-block through: along its whole run it
    returns would-block exactly when one of its transport reads or writes
    returned would-block, and it makes no transport call after that one, so
    the would-block is neither turned into an [Error] nor retried. *)
Theorem commands_pass_would_block :
  nb_transparent (@test_startup RXE TXE)
  /\ nb_transparent (@restart RXE TXE)
  /\ nb_transparent (@get_module_revision RXE TXE)
  /\ (forall ms, nb_transparent (@enter_deep_sleep RXE TXE ms))
  /\ nb_transparent (@factory_reset RXE TXE).
Proof.
  unfold test_startup, restart, get_module_revision, enter_deep_sleep,
    factory_reset, expect_ok_response, expect_response.
  split; [|split; [|split; [|split; [intros ms|]]]]; transparent_steps.
Qed.

End Proofs.

(** ** C9: baud rates *)

(** C9.  Every standard rate survives [speed] then [from_speed]; an integer
    that is no standard speed becomes [BaudOther] of itself, whose [speed]
    is that integer. *)
Theorem baud_rate_round_trip :
  Forall (fun b => from_speed (speed b) = b) standard_rates
  /\ (forall n, ~ In n (map speed standard_rates) ->
      from_speed n = BaudOther n /\ speed (from_speed n) = n).
Proof.
  split.
  - repeat constructor.
  - intros n Hn. simpl in Hn. unfold from_speed.
    repeat match goal with
           | |- context [(n =? ?k)%N] =>
               destruct (N.eqb_spec n k) as [->|_]; [exfalso; apply Hn; simpl; tauto|]
           end.
    split; reflexivity.
Qed.

(** * Further properties of the driver *)

Section Extras.

Context {RXE TXE : Type}.

(** ** Writing *)

Lemma bind_assoc_at {T U V} (m : @M RXE TXE T) (k : T -> M U) (h : U -> M V) s :
  bind (bind m k) h s = bind m (fun x => bind (k x) h) s.
Proof. unfold bind; destruct (m s) as [[x|e] s']; reflexivity. Qed.

Lemma bind_ext_at {T U} (m : @M RXE TXE T) (k1 k2 : T -> M U) s :
  (forall x s', k1 x s' = k2 x s') -> bind m k1 s = bind m k2 s.
Proof. intros H; unfold bind; destruct (m s) as [[x|e] s']; [apply H | reflexivity]. Qed.

Lemma write_app (d1 d2 : list byte) (s : @st RXE TXE) :
  write (d1 ++ d2) s = bind (write d1) (fun _ => write d2) s.
Proof.
  revert s; induction d1 as [|b d1 IH]; intros s; [reflexivity|].
  simpl. rewrite bind_assoc_at. apply bind_ext_at. intros [] s'. apply IH.
Qed.

Lemma write_command_as_write_at (command : list fmt_piece) (s : @st RXE TXE) :
  write_command command s = write (List.concat (map piece_bytes command)) s.
Proof.
  revert s; induction command as [|p ps IH]; intros s; [reflexivity|].
  simpl. rewrite write_app. apply bind_ext_at. intros [] s'. apply IH.
Qed.

Lemma write_fail_run (data : list byte) :
  forall (k : nat) (ev : @tx_event TXE) (rest_tx : list tx_event) (s : @st RXE TXE),
  k < List.length data -> tx s = repeat TxAccept k ++ ev :: rest_tx -> ev <> TxAccept ->
  rx (snd (write data s)) = rx s
  /\ tx (snd (write data s)) = rest_tx
  /\ written (snd (write data s)) = written s ++ firstn k data
  /\ fst (write data s) = match ev with
                          | TxErr e => Err (Other (UartWrite e))
                          | _ => Err WouldBlock
                          end.
Proof.
  induction data as [|b data IH]; intros k ev rest_tx s Hk Htx Hev; [simpl in Hk; lia|].
  destruct k as [|k].
  - simpl in Htx. simpl write. unfold bind, putc. rewrite Htx.
    destruct ev as [|e|]; [contradiction | |]; simpl; rewrite app_nil_r;
      repeat split; reflexivity.
  - simpl in Htx, Hk.
    assert (Hp : putc b s = (Ok tt, mkSt (rx s) (repeat TxAccept k ++ ev :: rest_tx)
                                          (written s ++ [b]) (log s ++ [Completed])))
      by (unfold putc; rewrite Htx; reflexivity).
    simpl write. rewrite (bind_ok _ _ s tt _ Hp).
    destruct (IH k ev rest_tx
      (mkSt (rx s) (repeat TxAccept k ++ ev :: rest_tx) (written s ++ [b]) (log s ++ [Completed]))
      ltac:(lia) eq_refl Hev) as [H1 [H2 [H3 H4]]].
    simpl in H1, H3. rewrite H1, H3, <- app_assoc. repeat split; assumption.
Qed.

(** [write] puts the bytes in order and stops at the first [write] call of
    the transmitter that does not succeed: the bytes before it are written,
    none after it is tried, the receive side is not touched, and the
    failure comes back as [UartWrite] or would-block. *)
Theorem write_stops_at_first_failure (data : list byte) :
  forall (k : nat) (ev : @tx_event TXE) (rest_tx : list tx_event) (s : @st RXE TXE),
  k < List.length data -> tx s = repeat TxAccept k ++ ev :: rest_tx -> ev <> TxAccept ->
  rx (snd (write data s)) = rx s
  /\ tx (snd (write data s)) = rest_tx
  /\ written (snd (write data s)) = written s ++ firstn k data
  /\ fst (write data s) = match ev with
                          | TxErr e => Err (Other (UartWrite e))
                          | _ => Err WouldBlock
                          end.
Proof. exact (write_fail_run data). Qed.


(** [write_command] ([Writer::write_str] over the pieces of the format)
    behaves like one [write] of the whole formatted line: with a transmitter
    that accepts [k] bytes and then fails, exactly the first [k] bytes of
    the line are written and the failure is returned, with nothing read. *)
Theorem write_command_stops_at_first_failure (command : list fmt_piece)
      (k : nat) (ev : @tx_event TXE) (rest_tx : list tx_event) (s : @st RXE TXE) :
  let line := List.concat (map piece_bytes command) in
  k < List.length line -> tx s = repeat TxAccept k ++ ev :: rest_tx -> ev <> TxAccept ->
  rx (snd (write_command command s)) = rx s
  /\ written (snd (write_command command s)) = written s ++ firstn k line
  /\ fst (write_command command s) = match ev with
                                     | TxErr e => Err (Other (UartWrite e))
                                     | _ => Err WouldBlock
                                     end.
Proof.
  intros line Hk Htx Hev. rewrite write_command_as_write_at.
  destruct (write_fail_run line k ev rest_tx s Hk Htx Hev) as [H1 [_ [H3 H4]]].
  repeat split; assumption.
Qed.

(** ** Matching a reply *)

(** [expect data] on a reply that starts with [data] succeeds, reading
    exactly those bytes and writing nothing. *)
Theorem expect_consumes_expected (data : list byte) :
  forall (rest : list (@rx_event RXE)) (s : @st RXE TXE),
  rx s = map RxByte data ++ rest ->
  fst (expect data s) = Ok tt /\ rx (snd (expect data s)) = rest
  /\ written (snd (expect data s)) = written s /\ tx (snd (expect data s)) = tx s.
Proof.
  induction data as [|b data IH]; intros rest s Hrx.
  - simpl in *. rewrite Hrx. repeat split; reflexivity.
  - simpl in Hrx |- *.
    rewrite (bind_ok _ _ s b _ (getc_byte s b _ Hrx)), eqb_refl_byte.
    destruct (IH rest (record_read (map RxByte data ++ rest) Completed s) eq_refl)
      as [H1 [H2 [H3 H4]]].
    repeat split; assumption.
Qed.

(** A read failure met while [expect] is still matching is returned as the
    [UartRead] error that wraps it; the bytes after it stay unread. *)
Theorem expect_read_error (pre : list byte) (d : byte) (data' : list byte)
      (e : RXE) (rest : list (@rx_event RXE)) (s : @st RXE TXE) :
  rx s = map RxByte pre ++ RxErr e :: rest ->
  fst (expect (pre ++ d :: data') s) = Err (Other (UartRead e))
  /\ rx (snd (expect (pre ++ d :: data') s)) = rest.
Proof.
  revert s; induction pre as [|a pre IH]; intros s Hrx.
  - simpl in *.
    assert (Hg : getc s = (Err (Other (UartRead e)), record_read rest Failed s))
      by (unfold getc; rewrite Hrx; reflexivity).
    rewrite (bind_err _ _ s _ _ Hg). split; reflexivity.
  - simpl in Hrx |- *.
    rewrite (bind_ok _ _ s a _ (getc_byte s a _ Hrx)), eqb_refl_byte.
    apply IH; reflexivity.
Qed.

(** ** Reading lines *)

Lemma no_crlf_app_l (l1 l2 : list byte) : no_crlf (l1 ++ l2) = true -> no_crlf l1 = true.
Proof.
  induction l1 as [|a l1 IH]; [reflexivity|].
  destruct l1 as [|b l1]; [reflexivity|].
  cbn [app no_crlf]. intros H; apply andb_prop in H as [H1 H2].
  rewrite H1; simpl; apply IH; exact H2.
Qed.

Lemma no_crlf_snoc_CR (l : list byte) : no_crlf l = true -> no_crlf (l ++ [CR]) = true.
Proof.
  induction l as [|a l IH]; [reflexivity|].
  destruct l as [|b l].
  - intros _; simpl; rewrite is_crlf_CR; reflexivity.
  - cbn [app no_crlf]. intros H; apply andb_prop in H as [H1 H2].
    rewrite H1; simpl; apply IH; exact H2.
Qed.

Lemma no_crlf_x00 (l : list byte) : no_crlf l = true -> no_crlf (x00 :: l) = true.
Proof.
  destruct l as [|b l]; intros H; [reflexivity|].
  change (negb (is_crlf x00 b) && no_crlf (b :: l) = true); rewrite H; reflexivity.
Qed.

Lemma from_utf8_valid (v : list byte) : utf8_valid v = true -> from_utf8 v = Ok v.
Proof. unfold utf8_valid, from_utf8; destruct (run_utf8_validation 0 v); congruence. Qed.

(** [read_line::<N>] on a valid UTF-8 line without CR LF inside: the line
    comes back (behind the NUL of [last[0]]) and the reply after its CR LF
    is left unread when it has fewer than [N] bytes; with [N] bytes or more
    it fails with [BufferOverflow], so the longest line it accepts has
    [N - 1] bytes. *)
Theorem read_line_capacity (N : nat) (content : list byte) (rest : list (@rx_event RXE))
      (s : @st RXE TXE) :
  rx s = map RxByte (content ++ [CR; LF]) ++ rest ->
  no_crlf content = true -> utf8_valid content = true ->
  (List.length content < N ->
     fst (read_line N s) = Ok (x00 :: content) /\ rx (snd (read_line N s)) = rest)
  /\ (N <= List.length content -> fst (read_line N s) = Err (Other BufferOverflow)).
Proof.
  intros Hrx Hno Hutf. rewrite read_line_unfold.
  assert (Hno0 : no_crlf (x00 :: content) = true) by (apply no_crlf_x00; exact Hno).
  assert (Hlen : List.length content + 2 <= List.length (rx s)).
  { rewrite Hrx, length_app, length_map, length_app; simpl. lia. }
  split; intros HN.
  - destruct (read_line_loop_line N content rest (S (List.length (rx s))) x00 [] s
                Hrx Hno0 ltac:(simpl; lia) ltac:(lia)) as [H1 H2].
    destruct (read_line_loop N (S (List.length (rx s))) x00 [] s) as [r s'] eqn:E.
    simpl in H1, H2; subst r.
    rewrite (bind_ok _ _ s _ s' E), from_utf8_valid
      by (rewrite utf8_valid_nul; exact Hutf).
    split; [reflexivity | exact H2].
  - set (line := content ++ [CR]).
    assert (Hline : no_crlf line = true) by (apply no_crlf_snoc_CR; exact Hno).
    assert (Hll : S N <= List.length line) by (unfold line; rewrite length_app; simpl; lia).
    set (pre := firstn (S N) line).
    assert (Hrx' : rx s = map RxByte pre ++ (map RxByte (skipn (S N) line ++ [LF]) ++ rest)).
    { rewrite Hrx, app_assoc, <- map_app, app_assoc.
      unfold pre. rewrite firstn_skipn. unfold line. rewrite <- app_assoc. reflexivity. }
    assert (Hpre : List.length pre = S N) by (unfold pre; rewrite length_firstn; lia).
    assert (Hnopre : no_crlf (x00 :: pre) = true).
    { apply no_crlf_x00. apply (no_crlf_app_l _ (skipn (S N) line)).
      unfold pre; rewrite firstn_skipn; exact Hline. }
    destruct (read_line_loop_overflow N pre _ (S (List.length (rx s))) x00 [] s Hrx'
                ltac:(intros E; rewrite E in Hpre; discriminate) Hnopre
                ltac:(simpl; lia) ltac:(lia)) as [H1 _].
    destruct (read_line_loop N (S (List.length (rx s))) x00 [] s) as [r s'] eqn:E.
    simpl in H1; subst r.
    rewrite (bind_err _ _ s _ s' E). reflexivity.
Qed.

Lemma read_line_loop_block N (pre : list byte) (rest : list (@rx_event RXE)) :
  forall fuel last1 acc (s : @st RXE TXE),
  rx s = map RxByte pre ++ RxBlock :: rest -> no_crlf (last1 :: pre) = true ->
  List.length acc + List.length pre <= N -> List.length pre < fuel ->
  fst (read_line_loop N fuel last1 acc s) = Err WouldBlock
  /\ rx (snd (read_line_loop N fuel last1 acc s)) = rest.
Proof.
  induction pre as [|b pre IH]; intros fuel last1 acc s Hrx Hno Hlen Hfuel;
    (destruct fuel as [|fuel]; [simpl in Hfuel; lia|]); cbn [read_line_loop].
  - simpl in Hrx.
    assert (Hg : getc s = (Err WouldBlock, record_read rest Blocked s))
      by (unfold getc; rewrite Hrx; reflexivity).
    rewrite (bind_err _ _ s _ _ Hg). split; reflexivity.
  - apply no_crlf_cons2 in Hno as [Hb Hno].
    rewrite (bind_ok _ _ s b _ (getc_byte s b _ Hrx)), Hb.
    simpl in Hlen. rewrite (vec_push_ok N acc last1) by lia.
    apply IH; [reflexivity | exact Hno | rewrite length_app; simpl; lia | simpl in Hfuel; lia].
Qed.

(** A would-block in the middle of a line makes [read_line] return
    would-block having consumed the bytes before it, which are dropped: the
    buffer is local to the call, so a retry starts on the bytes after the
    would-block. *)
Theorem read_line_would_block_drops_prefix (N : nat) (pre : list byte)
      (rest : list (@rx_event RXE)) (s : @st RXE TXE) :
  rx s = map RxByte pre ++ RxBlock :: rest -> no_crlf pre = true -> List.length pre <= N ->
  fst (read_line N s) = Err WouldBlock /\ rx (snd (read_line N s)) = rest.
Proof.
  intros Hrx Hno Hlen. rewrite read_line_unfold.
  destruct (read_line_loop_block N pre rest (S (List.length (rx s))) x00 [] s Hrx
              (no_crlf_x00 pre Hno) ltac:(simpl; lia)
              ltac:(rewrite Hrx, length_app, length_map; simpl; lia)) as [H1 H2].
  destruct (read_line_loop N (S (List.length (rx s))) x00 [] s) as [r s'] eqn:E.
  simpl in H1, H2; subst r.
  rewrite (bind_err _ _ s _ s' E). split; [reflexivity | exact H2].
Qed.

Lemma ignore_line_loop_S fuel l0 l1 :
  @ignore_line_loop RXE TXE (S fuel) l0 l1 =
  if is_crlf l0 l1 then ret tt else bind getc (fun b => ignore_line_loop fuel l1 b).
Proof. reflexivity. Qed.

Lemma ignore_line_loop_line (pre : list byte) (rest : list (@rx_event RXE)) :
  forall fuel l0 l1 (s : @st RXE TXE),
  rx s = map RxByte (pre ++ [CR; LF]) ++ rest -> no_crlf (l1 :: pre) = true ->
  is_crlf l0 l1 = false -> List.length pre + 2 <= fuel ->
  fst (ignore_line_loop fuel l0 l1 s) = Ok tt
  /\ rx (snd (ignore_line_loop fuel l0 l1 s)) = rest.
Proof.
  induction pre as [|b pre IH]; intros fuel l0 l1 s Hrx Hno H01 Hfuel.
  - destruct fuel as [|[|fuel]]; [simpl in Hfuel; lia | simpl in Hfuel; lia|].
    rewrite ignore_line_loop_S, H01.
    rewrite (bind_ok _ _ s CR _ (getc_byte s CR _ Hrx)).
    rewrite ignore_line_loop_S, is_crlf_CR.
    erewrite bind_ok by (apply getc_byte; reflexivity).
    destruct fuel; split; reflexivity.
  - destruct fuel as [|fuel]; [simpl in Hfuel; lia|].
    apply no_crlf_cons2 in Hno as [Hb Hno].
    rewrite ignore_line_loop_S, H01.
    rewrite (bind_ok _ _ s b _ (getc_byte s b _ Hrx)).
    apply IH; [reflexivity | exact Hno | exact Hb | simpl in Hfuel; lia].
Qed.

(** [ignore_line] skips one line of any length: on a line without CR LF
    inside it succeeds, reading up to and including the first CR LF. *)
Theorem ignore_line_skips_line (content : list byte) (rest : list (@rx_event RXE))
      (s : @st RXE TXE) :
  rx s = map RxByte (content ++ [CR; LF]) ++ rest -> no_crlf content = true ->
  fst (ignore_line s) = Ok tt /\ rx (snd (ignore_line s)) = rest.
Proof.
  intros Hrx Hno. unfold ignore_line.
  apply (ignore_line_loop_line content rest); [exact Hrx | apply no_crlf_x00; exact Hno | reflexivity |].
  rewrite Hrx, length_app, length_map, length_app; simpl; lia.
Qed.

(** ** Commands *)

Lemma run_fst_snd {T} (m : @M RXE TXE T) s x s' :
  fst (m s) = Ok x -> snd (m s) = s' -> m s = (Ok x, s').
Proof. destruct (m s); simpl; intros -> ->; reflexivity. Qed.

Lemma expect_run (data : list byte) :
  forall (rest : list (@rx_event RXE)) (s : @st RXE TXE),
  rx s = map RxByte data ++ rest -> exists s', expect data s = (Ok tt, s') /\ rx s' = rest.
Proof.
  induction data as [|b data IH]; intros rest s Hrx.
  - exists s; split; [reflexivity | exact Hrx].
  - simpl in Hrx |- *.
    rewrite (bind_ok _ _ s b _ (getc_byte s b _ Hrx)), eqb_refl_byte.
    apply IH; reflexivity.
Qed.

Lemma read_line_line_run N (content : list byte) (rest : list (@rx_event RXE)) (s : @st RXE TXE) :
  rx s = map RxByte (content ++ [CR; LF]) ++ rest ->
  no_crlf content = true -> utf8_valid content = true -> List.length content < N ->
  exists s', read_line N s = (Ok (x00 :: content), s') /\ rx s' = rest.
Proof.
  intros Hrx Hno Hutf HN. rewrite read_line_unfold.
  destruct (read_line_loop_line N content rest (S (List.length (rx s))) x00 [] s
              Hrx (no_crlf_x00 content Hno) ltac:(simpl; lia)
              ltac:(rewrite Hrx, length_app, length_map, length_app; simpl; lia)) as [H1 H2].
  destruct (read_line_loop N (S (List.length (rx s))) x00 [] s) as [r s'] eqn:E.
  simpl in H1, H2; subst r.
  rewrite (bind_ok _ _ s _ s' E), from_utf8_valid by (rewrite utf8_valid_nul; exact Hutf).
  exists s'; split; [reflexivity | exact H2].
Qed.

Lemma ignore_line_run (content : list byte) (rest : list (@rx_event RXE)) (s : @st RXE TXE) :
  rx s = map RxByte (content ++ [CR; LF]) ++ rest -> no_crlf content = true ->
  exists s', ignore_line s = (Ok tt, s') /\ rx s' = rest.
Proof.
  intros Hrx Hno.
  destruct (ignore_line_loop_line content rest (S (List.length (rx s))) x00 x00 s Hrx
              (no_crlf_x00 content Hno) eq_refl
              ltac:(rewrite Hrx, length_app, length_map, length_app; simpl; lia)) as [H1 H2].
  exists (snd (ignore_line s)); split; [apply run_fst_snd; [exact H1 | reflexivity] | exact H2].
Qed.

(** The reading half of the driver leaves the transmitter and the bytes
    written alone. *)
Definition reads_only {T} (m : @M RXE TXE T) : Prop :=
  forall s, written (snd (m s)) = written s /\ tx (snd (m s)) = tx s.

Lemma ro_ret {T} (x : T) : reads_only (ret x).
Proof. intros s; split; reflexivity. Qed.

Lemma ro_fail {T} e : reads_only (T:=T) (fail e).
Proof. intros s; split; reflexivity. Qed.

Lemma ro_getc : reads_only getc.
Proof. intros s; unfold getc; destruct (rx s) as [|[b|e|] rest]; split; reflexivity. Qed.

Lemma ro_bind {T U} (m : @M RXE TXE T) (k : T -> M U) :
  reads_only m -> (forall x, reads_only (k x)) -> reads_only (bind m k).
Proof.
  intros Hm Hk s. unfold bind. specialize (Hm s).
  destruct (m s) as [[x|e] s']; simpl in *; [|exact Hm].
  destruct (Hk x s') as [H1 H2]. rewrite H1, H2; exact Hm.
Qed.

Lemma ro_expect (data : list byte) : reads_only (expect data).
Proof.
  induction data as [|b data IH]; simpl; [apply ro_ret|].
  apply ro_bind; [apply ro_getc|]. intros a; destruct (Byte.eqb b a); [exact IH | apply ro_fail].
Qed.

Lemma ro_read_line_loop N fuel : forall last1 acc, reads_only (read_line_loop N fuel last1 acc).
Proof.
  induction fuel as [|fuel IH]; intros last1 acc; cbn [read_line_loop]; [apply ro_fail|].
  apply ro_bind; [apply ro_getc|]. intros l1.
  destruct (is_crlf last1 l1); [apply ro_ret|].
  destruct (vec_push N acc last1); [apply IH | apply ro_fail].
Qed.

Lemma ro_read_line N : reads_only (read_line N).
Proof.
  intros s. rewrite read_line_unfold.
  apply (ro_bind (read_line_loop N (S (List.length (rx s))) x00 [])); [apply ro_read_line_loop|].
  intros r; destruct (from_utf8 r); [apply ro_ret | apply ro_fail].
Qed.

Lemma ro_ignore_line_loop fuel : forall l0 l1, reads_only (ignore_line_loop fuel l0 l1).
Proof.
  induction fuel as [|fuel IH]; intros l0 l1; simpl;
    (destruct (is_crlf l0 l1); [apply ro_ret|]); [apply ro_fail|].
  apply ro_bind; [apply ro_getc | intros b; apply IH].
Qed.

Lemma ro_ignore_line : reads_only ignore_line.
Proof. intros s; unfold ignore_line; apply ro_ignore_line_loop. Qed.

Lemma ro_expect_ok_response : reads_only expect_ok_response.
Proof. apply ro_expect. Qed.

Local Ltac reads_only_steps :=
  repeat first [ apply ro_expect_ok_response | apply ro_read_line | apply ro_ignore_line
               | apply ro_ret | apply ro_fail | apply ro_bind | intros ? ].

(** [expect], [read_line] and [ignore_line] only read: whatever the reply,
    they never call the transmitter and never add to the bytes written. *)
Theorem reading_never_writes (data : list byte) (N : nat) :
  reads_only (expect data) /\ reads_only (read_line N) /\ reads_only ignore_line.
Proof. split; [apply ro_expect | split; [apply ro_read_line | apply ro_ignore_line]]. Qed.

Lemma command_written (c : list fmt_piece) {T} (k : unit -> @M RXE TXE T) s :
  tx s = [] -> reads_only (k tt) ->
  written (snd (bind (write_command c) k s)) = written s ++ List.concat (map piece_bytes c).
Proof.
  intros Htx Hk.
  rewrite (bind_ok _ _ s tt _ (write_command_accepting c s Htx)).
  rewrite (proj1 (Hk _)). reflexivity.
Qed.

(** With a transmitter that takes every byte, each command sends exactly
    its command line, once, and nothing more, whatever the module replies
    (also when the reply is an error). *)
Theorem commands_write_only_their_line (ms : N) (s : @st RXE TXE) :
  tx s = [] ->
  written (snd (test_startup s)) = written s ++ list_byte_of_string ("AT" ++ crlf)
  /\ written (snd (restart s)) = written s ++ list_byte_of_string ("AT+RST" ++ crlf)
  /\ written (snd (get_module_revision s)) = written s ++ list_byte_of_string ("AT+GMR" ++ crlf)
  /\ written (snd (enter_deep_sleep ms s))
     = written s ++ list_byte_of_string "AT+GSLP=" ++ fmt_u32 ms ++ [CR; LF]
  /\ written (snd (factory_reset s)) = written s ++ list_byte_of_string ("AT+RESTORE" ++ crlf).
Proof.
  intros Htx.
  repeat split; unfold test_startup, restart, get_module_revision, enter_deep_sleep,
    factory_reset;
    (rewrite command_written; [| exact Htx | reads_only_steps]); simpl;
    rewrite ?app_nil_r; reflexivity.
Qed.

Lemma command_write_fails (c : list fmt_piece) {T} (k : unit -> @M RXE TXE T)
      (n : nat) (ev : @tx_event TXE) (rest_tx : list tx_event) (s : @st RXE TXE) :
  n < List.length (List.concat (map piece_bytes c)) ->
  tx s = repeat TxAccept n ++ ev :: rest_tx -> ev <> TxAccept ->
  fst (bind (write_command c) k s) = match ev with
                                      | TxErr e => Err (Other (UartWrite e))
                                      | _ => Err WouldBlock
                                      end
  /\ rx (snd (bind (write_command c) k s)) = rx s.
Proof.
  intros Hn Htx Hev.
  destruct (write_fail_run _ n ev rest_tx s Hn Htx Hev) as [H1 [_ [_ H4]]].
  assert (E : write_command c s = (fst (write_command c s), snd (write_command c s)))
    by (destruct (write_command c s); reflexivity).
  rewrite <- write_command_as_write_at in H1, H4.
  destruct ev as [|e|]; [contradiction | |];
    rewrite H4 in E; rewrite (bind_err _ _ s _ _ E); simpl; split; (reflexivity || exact H1).
Qed.

(** A command whose line cannot be sent in full returns the transmitter's
    failure and reads nothing: the reply is only looked at once the whole
    command line is out. *)
Theorem commands_stop_on_write_failure (n : nat) (ev : @tx_event TXE)
      (rest_tx : list tx_event) (s : @st RXE TXE) :
  tx s = repeat TxAccept n ++ ev :: rest_tx -> ev <> TxAccept ->
  let err {T} : result T (nb_error Error) :=
    match ev with TxErr e => Err (Other (UartWrite e)) | _ => Err WouldBlock end in
  (n < 4 -> fst (test_startup s) = err /\ rx (snd (test_startup s)) = rx s)
  /\ (n < 8 -> fst (restart s) = err /\ rx (snd (restart s)) = rx s)
  /\ (n < 8 -> fst (get_module_revision s) = err /\ rx (snd (get_module_revision s)) = rx s)
  /\ (forall ms, n < 10 + List.length (fmt_u32 ms) ->
        fst (enter_deep_sleep ms s) = err /\ rx (snd (enter_deep_sleep ms s)) = rx s)
  /\ (n < 12 -> fst (factory_reset s) = err /\ rx (snd (factory_reset s)) = rx s).
Proof.
  intros Htx Hev err.
  repeat split; intros;
    unfold test_startup, restart, get_module_revision, enter_deep_sleep, factory_reset;
    apply (command_write_fails _ _ n ev rest_tx s); try assumption;
    simpl; rewrite ?length_app; simpl; lia.
Qed.

(** [test_startup], [restart] and [factory_reset] succeed when the reply
    starts with [OK], reading exactly those two bytes. *)
Theorem simple_commands_succeed_on_ok (rest : list (@rx_event RXE)) (s : @st RXE TXE) :
  tx s = [] -> rx s = map RxByte (list_byte_of_string "OK") ++ rest ->
  (fst (test_startup s) = Ok tt /\ rx (snd (test_startup s)) = rest)
  /\ (fst (restart s) = Ok tt /\ rx (snd (restart s)) = rest)
  /\ (fst (factory_reset s) = Ok tt /\ rx (snd (factory_reset s)) = rest).
Proof.
  intros Htx Hrx. unfold test_startup, restart, factory_reset.
  repeat split;
    (rewrite (bind_ok _ _ s tt _ (write_command_accepting _ s Htx));
     match goal with
     | |- context [expect_ok_response ?s1] =>
         destruct (expect_run (list_byte_of_string "OK") rest s1 Hrx) as [s' [E H]]
     end;
     unfold expect_ok_response, expect_response; rewrite E; simpl; first [reflexivity | exact H]).
Qed.

(** [enter_deep_sleep] skips the echoed line, whatever its length, and then
    succeeds on [OK]. *)
Theorem enter_deep_sleep_succeeds (ms : N) (echo : list byte)
      (rest : list (@rx_event RXE)) (s : @st RXE TXE) :
  tx s = [] -> no_crlf echo = true ->
  rx s = map RxByte (echo ++ [CR; LF] ++ list_byte_of_string "OK") ++ rest ->
  fst (enter_deep_sleep ms s) = Ok tt /\ rx (snd (enter_deep_sleep ms s)) = rest.
Proof.
  intros Htx Hno Hrx. unfold enter_deep_sleep.
  rewrite (bind_ok _ _ s tt _ (write_command_accepting _ s Htx)).
  match goal with
  | |- context [bind ignore_line _ ?s0] =>
      destruct (ignore_line_run echo (map RxByte (list_byte_of_string "OK") ++ rest) s0)
        as [s1 [E1 H1]]; [|exact Hno|]
  end.
  { cbn [rx]. rewrite Hrx, !map_app, <- !app_assoc. reflexivity. }
  rewrite (bind_ok _ _ _ tt _ E1).
  destruct (expect_run (list_byte_of_string "OK") rest s1 H1) as [s2 [E2 H2]].
  unfold expect_ok_response, expect_response. rewrite E2; split; [reflexivity | exact H2].
Qed.

(** [get_module_revision] on three valid lines of fewer than 64 bytes, each
    ended by CR LF, followed by [OK]: the three lines come back in order,
    each behind the NUL byte of [read_line], and the reply is read up to and
    including [OK]. *)
Theorem get_module_revision_succeeds (l1 l2 l3 : list byte)
      (rest : list (@rx_event RXE)) (s : @st RXE TXE) :
  tx s = [] ->
  rx s = map RxByte (l1 ++ [CR; LF] ++ l2 ++ [CR; LF] ++ l3 ++ [CR; LF]
                     ++ list_byte_of_string "OK") ++ rest ->
  no_crlf l1 = true -> no_crlf l2 = true -> no_crlf l3 = true ->
  utf8_valid l1 = true -> utf8_valid l2 = true -> utf8_valid l3 = true ->
  List.length l1 < 64 -> List.length l2 < 64 -> List.length l3 < 64 ->
  fst (get_module_revision s) = Ok (mkModuleRevision (x00 :: l1) (x00 :: l2) (x00 :: l3))
  /\ rx (snd (get_module_revision s)) = rest.
Proof.
  intros Htx Hrx N1 N2 N3 V1 V2 V3 L1 L2 L3.
  unfold get_module_revision.
  rewrite (bind_ok _ _ s tt _ (write_command_accepting _ s Htx)).
  match goal with
  | |- context [bind (read_line U64) _ ?s0] =>
      destruct (read_line_line_run U64 l1
                  (map RxByte (l2 ++ [CR; LF] ++ l3 ++ [CR; LF] ++ list_byte_of_string "OK") ++ rest)
                  s0) as [s1 [E1 H1]]; try assumption
  end.
  { cbn [rx]. rewrite Hrx, !map_app, <- !app_assoc. reflexivity. }
  rewrite (bind_ok _ _ _ _ _ E1).
  destruct (read_line_line_run U64 l2
              (map RxByte (l3 ++ [CR; LF] ++ list_byte_of_string "OK") ++ rest) s1)
    as [s2 [E2 H2]]; try assumption.
  { rewrite H1, !map_app, <- !app_assoc. reflexivity. }
  rewrite (bind_ok _ _ _ _ _ E2).
  destruct (read_line_line_run U64 l3 (map RxByte (list_byte_of_string "OK") ++ rest) s2)
    as [s3 [E3 H3]]; try assumption.
  { rewrite H2, !map_app, <- !app_assoc. reflexivity. }
  rewrite (bind_ok _ _ _ _ _ E3).
  destruct (expect_run (list_byte_of_string "OK") rest s3 H3) as [s4 [E4 H4]].
  rewrite (bind_ok expect_ok_response _ _ _ _ E4). split; [reflexivity | exact H4].
Qed.

(** ** UTF-8 *)

Lemma run_utf8_validation_ascii (v : list byte) :
  Forall (fun b => (Byte.to_N b < 128)%N) v -> forall o, run_utf8_validation o v = Ok tt.
Proof.
  induction 1 as [|b v Hb Hv IH]; intros o; [reflexivity|].
  cbn [run_utf8_validation]. rewrite (proj2 (N.ltb_lt _ _) Hb). apply IH.
Qed.

(** Bytes below [0x80] are always valid UTF-8 ([from_utf8] keeps an ASCII
    line). *)
Theorem ascii_is_utf8 (v : list byte) :
  Forall (fun b => (Byte.to_N b < 128)%N) v -> utf8_valid v = true.
Proof. intros H; unfold utf8_valid; rewrite (run_utf8_validation_ascii v H 0); reflexivity. Qed.

Lemma run_utf8_validation_app n :
  forall (v1 v2 : list byte) o o', List.length v1 <= n ->
  utf8_ok (run_utf8_validation o v1) = true ->
  utf8_ok (run_utf8_validation o (v1 ++ v2)) = utf8_ok (run_utf8_validation o' v2).
Proof.
  induction n as [|n IH]; intros v1 v2 o o' Hlen.
  - destruct v1; [|simpl in Hlen; lia].
    intros _; apply run_utf8_validation_offset with (n := List.length v2); lia.
  - destruct v1 as [|first rest].
    + intros _; apply run_utf8_validation_offset with (n := List.length v2); lia.
    + simpl in Hlen. cbn [app run_utf8_validation].
      repeat (cbn [app];
              match goal with
              | |- context [if ?c then _ else _] => destruct c
              | |- context [match ?l with [] => _ | _ :: _ => _ end] =>
                  is_var l; lazymatch l with v2 => fail | _ => destruct l end
              | |- context [match ?l ++ v2 with [] => _ | _ :: _ => _ end] =>
                  is_var l; destruct l
              end);
        try (intros H; discriminate H);
        intros H; apply IH; simpl in *; (lia || exact H).
Qed.

(** A valid UTF-8 prefix never changes the verdict on what follows it. *)
Theorem utf8_valid_app (v1 v2 : list byte) :
  utf8_valid v1 = true -> utf8_valid (v1 ++ v2) = utf8_valid v2.
Proof.
  unfold utf8_valid. intros H.
  pose proof (run_utf8_validation_app (List.length v1) v1 v2 0 0 (le_n _)) as E.
  destruct (run_utf8_validation 0 v1); [|discriminate].
  specialize (E eq_refl).
  destruct (run_utf8_validation 0 (v1 ++ v2)), (run_utf8_validation 0 v2);
    simpl in E; congruence.
Qed.

(** ** Failing to read a line *)

(** A line without CR LF inside that is short enough but not valid UTF-8 is
    consumed, CR LF included, and rejected with a [Utf8] error. *)
Theorem read_line_rejects_invalid_utf8 (N : nat) (content : list byte)
      (rest : list (@rx_event RXE)) (s : @st RXE TXE) :
  rx s = map RxByte (content ++ [CR; LF]) ++ rest ->
  no_crlf content = true -> utf8_valid content = false -> List.length content < N ->
  (exists cause, fst (read_line N s) = Err (Other (Utf8 cause)))
  /\ rx (snd (read_line N s)) = rest.
Proof.
  intros Hrx Hno Hutf HN. rewrite read_line_unfold.
  destruct (read_line_loop_line N content rest (S (List.length (rx s))) x00 [] s
              Hrx (no_crlf_x00 content Hno) ltac:(simpl; lia)
              ltac:(rewrite Hrx, length_app, length_map, length_app; simpl; lia)) as [H1 H2].
  destruct (read_line_loop N (S (List.length (rx s))) x00 [] s) as [r s'] eqn:E.
  simpl in H1, H2; subst r.
  rewrite (bind_ok _ _ s _ s' E).
  rewrite <- utf8_valid_nul in Hutf. unfold utf8_valid in Hutf. unfold from_utf8.
  destruct (run_utf8_validation 0 (x00 :: content)) as [_|cause]; [discriminate|].
  split; [exists cause; reflexivity | exact H2].
Qed.

Lemma read_line_loop_read_error N (pre : list byte) (e : RXE) (rest : list (@rx_event RXE)) :
  forall fuel last1 acc (s : @st RXE TXE),
  rx s = map RxByte pre ++ RxErr e :: rest -> no_crlf (last1 :: pre) = true ->
  List.length acc + List.length pre <= N -> List.length pre < fuel ->
  fst (read_line_loop N fuel last1 acc s) = Err (Other (UartRead e))
  /\ rx (snd (read_line_loop N fuel last1 acc s)) = rest.
Proof.
  induction pre as [|b pre IH]; intros fuel last1 acc s Hrx Hno Hlen Hfuel;
    (destruct fuel as [|fuel]; [simpl in Hfuel; lia|]); cbn [read_line_loop].
  - simpl in Hrx.
    assert (Hg : getc s = (Err (Other (UartRead e)), record_read rest Failed s))
      by (unfold getc; rewrite Hrx; reflexivity).
    rewrite (bind_err _ _ s _ _ Hg). split; reflexivity.
  - apply no_crlf_cons2 in Hno as [Hb Hno].
    rewrite (bind_ok _ _ s b _ (getc_byte s b _ Hrx)), Hb.
    simpl in Hlen. rewrite (vec_push_ok N acc last1) by lia.
    apply IH; [reflexivity | exact Hno | rewrite length_app; simpl; lia | simpl in Hfuel; lia].
Qed.

(** A read error in the middle of a line ends [read_line] with the
    [UartRead] error wrapping it; the bytes of the line read so far are
    dropped and the reading resumes after the failed read. *)
Theorem read_line_read_error (N : nat) (pre : list byte) (e : RXE)
      (rest : list (@rx_event RXE)) (s : @st RXE TXE) :
  rx s = map RxByte pre ++ RxErr e :: rest -> no_crlf pre = true -> List.length pre <= N ->
  fst (read_line N s) = Err (Other (UartRead e)) /\ rx (snd (read_line N s)) = rest.
Proof.
  intros Hrx Hno Hlen. rewrite read_line_unfold.
  destruct (read_line_loop_read_error N pre e rest (S (List.length (rx s))) x00 [] s Hrx
              (no_crlf_x00 pre Hno) ltac:(simpl; lia)
              ltac:(rewrite Hrx, length_app, length_map; simpl; lia)) as [H1 H2].
  destruct (read_line_loop N (S (List.length (rx s))) x00 [] s) as [r s'] eqn:E.
  simpl in H1, H2; subst r.
  rewrite (bind_err _ _ s _ s' E). split; [reflexivity | exact H2].
Qed.

(** [write_command] sends the pieces of the format as one line: running it
    is running [write] on the concatenated bytes of the pieces. *)
Theorem write_command_is_one_write (command : list fmt_piece) (s : @st RXE TXE) :
  write_command command s = write (List.concat (map piece_bytes command)) s.
Proof. apply write_command_as_write_at. Qed.

End Extras.

(** ** Baud rates *)

(** [speed] undoes [from_speed]: no speed is lost or changed by the
    conversion. *)
Theorem speed_from_speed (n : N) : speed (from_speed n) = n.
Proof.
  unfold from_speed.
  repeat match goal with
         | |- context [(n =? ?k)%N] => destruct (N.eqb_spec n k) as [->|_]; [reflexivity|]
         end.
  reflexivity.
Qed.

(** [from_speed] undoes [speed] except on the [Other] values that carry a
    standard speed, which [from_speed] maps to the named variant. *)
Theorem from_speed_speed (b : BaudRate) :
  from_speed (speed b) = b <-> (forall n, b = BaudOther n -> ~ In n (map speed standard_rates)).
Proof.
  split.
  - intros H n -> Hin. simpl in Hin.
    repeat destruct Hin as [<-|Hin]; try discriminate H; contradiction.
  - destruct b; try reflexivity. intros H. specialize (H n eq_refl). simpl in H.
    unfold speed, from_speed.
    repeat match goal with
           | |- context [(n =? ?k)%N] =>
               destruct (N.eqb_spec n k) as [->|_]; [exfalso; apply H; simpl; tauto|]
           end.
    reflexivity.
Qed.

(** ** Witnesses: the hypotheses of the theorems hold at concrete inputs *)

Lemma read_line_overflows_witness :
  let s := @start unit unit (feed "abc") in
  (rx s = map RxByte (list_byte_of_string "abc") ++ []
   /\ List.length (list_byte_of_string "abc") = S 2
   /\ no_crlf (list_byte_of_string "abc") = true)
  /\ (fst (read_line 2 s) = Err (Other BufferOverflow) /\ rx (snd (read_line 2 s)) = []).
Proof.
  split; [split; [reflexivity | split; reflexivity]|].
  apply (read_line_overflows 2 (list_byte_of_string "abc") []); reflexivity.
Defined.

Lemma expect_fails_at_first_mismatch_witness :
  let s := @start unit unit (feed "OX") in
  ("K"%byte <> "X"%byte /\ rx s = map RxByte (["O"%byte] ++ ["X"%byte]) ++ [])
  /\ ((fst (expect (["O"%byte] ++ "K"%byte :: []) s) = Err (Other UnexpectedResponse)
       /\ rx (snd (expect (["O"%byte] ++ "K"%byte :: []) s)) = [])
      /\ (fst (@test_startup unit unit (start (feed ("ERROR" ++ crlf))))
            = Err (Other UnexpectedResponse)
          /\ rx (snd (@test_startup unit unit (start (feed ("ERROR" ++ crlf)))))
             = feed ("RROR" ++ crlf))).
Proof.
  split; [split; [discriminate | reflexivity]|].
  apply (expect_fails_at_first_mismatch ["O"%byte] "K"%byte "X"%byte [] []);
    [discriminate | reflexivity].
Defined.

Lemma enter_deep_sleep_command_line_witness :
  let s := @start unit unit [] in
  ((1500 < 2 ^ 32)%N /\ tx s = [])
  /\ (let line := list_byte_of_string "AT+GSLP=" ++ fmt_u32 1500 ++ [CR; LF] in
      let s1 := mkSt (rx s) [] (written s ++ line)
                     (log s ++ repeat Completed (List.length line)) in
      write_command [Lit "AT+GSLP="; ArgU32 1500; Lit crlf] s = (Ok tt, s1)
      /\ enter_deep_sleep 1500 s = bind ignore_line (fun _ => expect_ok_response) s1
      /\ is_decimal_rendering (fmt_u32 1500) 1500
      /\ list_byte_of_string "AT+GSLP=" ++ fmt_u32 1500 ++ [CR; LF]
         = list_byte_of_string ("AT+GSLP=1500" ++ crlf)).
Proof.
  split; [split; reflexivity|].
  apply (enter_deep_sleep_command_line 1500 (start [])); reflexivity.
Defined.

Lemma read_line_utf8_witness :
  let s := @start unit unit (map RxByte [xff; CR; LF]) in
  (rx s = map RxByte ([xff] ++ [CR; LF]) ++ [] /\ no_crlf [xff] = true
   /\ List.length [x00; xff] <= 64 /\ utf8_valid [x00; xff] = false)
  /\ ((utf8_valid [x00; xff] = false ->
         exists cause, fst (read_line 64 s) = Err (Other (Utf8 cause)))
      /\ (utf8_valid [x00; xff] = true -> fst (read_line 64 s) = Ok [x00; xff])
      /\ utf8_valid [x00; xff] = utf8_valid [xff]).
Proof.
  split; [split; [reflexivity | split; [reflexivity | split; [simpl; lia | reflexivity]]]|].
  apply (read_line_utf8 64 [xff] []); [reflexivity | reflexivity | simpl; lia].
Defined.

Lemma baud_rate_round_trip_witness :
  ~ In 4000000%N (map speed standard_rates)
  /\ from_speed 4000000 = BaudOther 4000000 /\ speed (from_speed 4000000) = 4000000%N.
Proof.
  assert (H : ~ In 4000000%N (map speed standard_rates)).
  { simpl; intros H; repeat (destruct H as [H|H]; [discriminate|]); exact H. }
  split; [exact H | apply (proj2 baud_rate_round_trip); exact H].
Defined.

Lemma write_stops_at_first_failure_witness :
  let s := @mkSt unit unit [] [TxAccept; TxAccept; TxErr tt] [] [] in
  let data := list_byte_of_string ("AT" ++ crlf) in
  (2 < List.length data /\ tx s = repeat TxAccept 2 ++ TxErr tt :: [] /\ TxErr tt <> TxAccept)
  /\ (rx (snd (write data s)) = rx s
      /\ tx (snd (write data s)) = []
      /\ written (snd (write data s)) = written s ++ firstn 2 data
      /\ fst (write data s) = Err (Other (UartWrite tt))).
Proof.
  split; [split; [simpl; lia | split; [reflexivity | discriminate]]|].
  apply (write_stops_at_first_failure (list_byte_of_string ("AT" ++ crlf)) 2 (TxErr tt) []
           (mkSt [] [TxAccept; TxAccept; TxErr tt] [] []));
    [simpl; lia | reflexivity | discriminate].
Defined.

Lemma write_command_stops_at_first_failure_witness :
  let s := @mkSt unit unit (feed "OK") (repeat TxAccept 9 ++ [TxBlock]) [] [] in
  let command := [Lit "AT+GSLP="; ArgU32 1500; Lit crlf] in
  let line := List.concat (map piece_bytes command) in
  (9 < List.length line /\ tx s = repeat TxAccept 9 ++ TxBlock :: [] /\ TxBlock <> @TxAccept unit)
  /\ (rx (snd (write_command command s)) = rx s
      /\ written (snd (write_command command s)) = written s ++ firstn 9 line
      /\ fst (write_command command s) = Err WouldBlock).
Proof.
  split; [split; [vm_compute; lia | split; [reflexivity | discriminate]]|].
  apply (write_command_stops_at_first_failure [Lit "AT+GSLP="; ArgU32 1500; Lit crlf] 9 TxBlock []
           (mkSt (feed "OK") (repeat TxAccept 9 ++ [TxBlock]) [] []));
    [vm_compute; lia | reflexivity | discriminate].
Defined.

Lemma expect_consumes_expected_witness :
  let s := @start unit unit (feed ("OK" ++ crlf)) in
  let data := list_byte_of_string "OK" in
  rx s = map RxByte data ++ feed crlf
  /\ (fst (expect data s) = Ok tt /\ rx (snd (expect data s)) = feed crlf
      /\ written (snd (expect data s)) = written s /\ tx (snd (expect data s)) = tx s).
Proof.
  split; [reflexivity|].
  apply (expect_consumes_expected (list_byte_of_string "OK") (feed crlf)
           (start (feed ("OK" ++ crlf)))); reflexivity.
Defined.

Lemma expect_read_error_witness :
  let s := @mkSt unit unit [RxByte "O"%byte; RxErr tt; RxByte "K"%byte] [] [] [] in
  rx s = map RxByte ["O"%byte] ++ RxErr tt :: [RxByte "K"%byte]
  /\ (fst (expect (["O"%byte] ++ "K"%byte :: []) s) = Err (Other (UartRead tt))
      /\ rx (snd (expect (["O"%byte] ++ "K"%byte :: []) s)) = [RxByte "K"%byte]).
Proof.
  split; [reflexivity|].
  apply (expect_read_error ["O"%byte] "K"%byte [] tt [RxByte "K"%byte]
           (mkSt [RxByte "O"%byte; RxErr tt; RxByte "K"%byte] [] [] [])); reflexivity.
Defined.

Lemma read_line_capacity_witness :
  let s := @start unit unit (feed ("abc" ++ crlf)) in
  let content := list_byte_of_string "abc" in
  (rx s = map RxByte (content ++ [CR; LF]) ++ [] /\ no_crlf content = true
   /\ utf8_valid content = true)
  /\ ((List.length content < 4 ->
         fst (read_line 4 s) = Ok (x00 :: content) /\ rx (snd (read_line 4 s)) = [])
      /\ (4 <= List.length content -> fst (read_line 4 s) = Err (Other BufferOverflow)))
  /\ ((List.length content < 3 ->
         fst (read_line 3 s) = Ok (x00 :: content) /\ rx (snd (read_line 3 s)) = [])
      /\ (3 <= List.length content -> fst (read_line 3 s) = Err (Other BufferOverflow))).
Proof.
  split; [split; [reflexivity | split; reflexivity]|].
  split; apply read_line_capacity; reflexivity.
Defined.

Lemma read_line_would_block_drops_prefix_witness :
  let s := @mkSt unit unit (feed "ab" ++ RxBlock :: feed ("c" ++ crlf)) [] [] [] in
  (rx s = map RxByte (list_byte_of_string "ab") ++ RxBlock :: feed ("c" ++ crlf)
   /\ no_crlf (list_byte_of_string "ab") = true
   /\ List.length (list_byte_of_string "ab") <= 64)
  /\ (fst (read_line 64 s) = Err WouldBlock /\ rx (snd (read_line 64 s)) = feed ("c" ++ crlf)).
Proof.
  split; [split; [reflexivity | split; [reflexivity | simpl; lia]]|].
  apply (read_line_would_block_drops_prefix 64 (list_byte_of_string "ab") (feed ("c" ++ crlf))
           (mkSt (feed "ab" ++ RxBlock :: feed ("c" ++ crlf)) [] [] []));
    [reflexivity | reflexivity | simpl; lia].
Defined.

Lemma ignore_line_skips_line_witness :
  let s := @start unit unit (feed ("AT+GSLP=1500" ++ crlf ++ "OK")) in
  let content := list_byte_of_string "AT+GSLP=1500" in
  (rx s = map RxByte (content ++ [CR; LF]) ++ feed "OK" /\ no_crlf content = true)
  /\ (fst (ignore_line s) = Ok tt /\ rx (snd (ignore_line s)) = feed "OK").
Proof.
  split; [split; reflexivity|].
  apply (ignore_line_skips_line (list_byte_of_string "AT+GSLP=1500") (feed "OK")
           (start (feed ("AT+GSLP=1500" ++ crlf ++ "OK")))); reflexivity.
Defined.

Lemma commands_write_only_their_line_witness :
  let s := @start unit unit (feed ("ERROR" ++ crlf)) in
  tx s = []
  /\ (written (snd (test_startup s)) = written s ++ list_byte_of_string ("AT" ++ crlf)
      /\ written (snd (restart s)) = written s ++ list_byte_of_string ("AT+RST" ++ crlf)
      /\ written (snd (get_module_revision s))
         = written s ++ list_byte_of_string ("AT+GMR" ++ crlf)
      /\ written (snd (enter_deep_sleep 1500 s))
         = written s ++ list_byte_of_string "AT+GSLP=" ++ fmt_u32 1500 ++ [CR; LF]
      /\ written (snd (factory_reset s))
         = written s ++ list_byte_of_string ("AT+RESTORE" ++ crlf)).
Proof.
  split; [reflexivity|].
  apply (commands_write_only_their_line 1500 (start (feed ("ERROR" ++ crlf)))); reflexivity.
Defined.

Lemma commands_stop_on_write_failure_witness :
  let s := @mkSt unit unit (feed ("OK" ++ crlf)) [TxAccept; TxAccept; TxErr tt] [] [] in
  (tx s = repeat TxAccept 2 ++ TxErr tt :: [] /\ TxErr tt <> TxAccept)
  /\ (fst (test_startup s) = Err (Other (UartWrite tt))
      /\ rx (snd (test_startup s)) = rx s).
Proof.
  split; [split; [reflexivity | discriminate]|].
  apply (commands_stop_on_write_failure 2 (TxErr tt) []
           (mkSt (feed ("OK" ++ crlf)) [TxAccept; TxAccept; TxErr tt] [] []));
    [reflexivity | discriminate | lia].
Defined.

Lemma simple_commands_succeed_on_ok_witness :
  let s := @start unit unit (feed ("OK" ++ crlf)) in
  (tx s = [] /\ rx s = map RxByte (list_byte_of_string "OK") ++ feed crlf)
  /\ ((fst (test_startup s) = Ok tt /\ rx (snd (test_startup s)) = feed crlf)
      /\ (fst (restart s) = Ok tt /\ rx (snd (restart s)) = feed crlf)
      /\ (fst (factory_reset s) = Ok tt /\ rx (snd (factory_reset s)) = feed crlf)).
Proof.
  split; [split; reflexivity|].
  apply (simple_commands_succeed_on_ok (feed crlf) (start (feed ("OK" ++ crlf))));
    reflexivity.
Defined.

Lemma enter_deep_sleep_succeeds_witness :
  let echo := list_byte_of_string "AT+GSLP=1500" in
  let s := @start unit unit (map RxByte (echo ++ [CR; LF] ++ list_byte_of_string "OK")
                             ++ feed crlf) in
  (tx s = [] /\ no_crlf echo = true
   /\ rx s = map RxByte (echo ++ [CR; LF] ++ list_byte_of_string "OK") ++ feed crlf)
  /\ (fst (enter_deep_sleep 1500 s) = Ok tt /\ rx (snd (enter_deep_sleep 1500 s)) = feed crlf).
Proof.
  split; [split; [reflexivity | split; reflexivity]|].
  apply (enter_deep_sleep_succeeds 1500 (list_byte_of_string "AT+GSLP=1500") (feed crlf)
           (start (map RxByte (list_byte_of_string "AT+GSLP=1500" ++ [CR; LF]
                               ++ list_byte_of_string "OK") ++ feed crlf)));
    reflexivity.
Defined.

Lemma get_module_revision_succeeds_witness :
  let l1 := list_byte_of_string "AT version:1.1.0.0" in
  let l2 := list_byte_of_string "SDK version:1.5.4" in
  let l3 := list_byte_of_string "compile time:Jun 20 2016" in
  let s := @start unit unit (map RxByte (l1 ++ [CR; LF] ++ l2 ++ [CR; LF] ++ l3 ++ [CR; LF]
                                         ++ list_byte_of_string "OK") ++ feed crlf) in
  (no_crlf l1 = true /\ no_crlf l2 = true /\ no_crlf l3 = true
   /\ utf8_valid l1 = true /\ utf8_valid l2 = true /\ utf8_valid l3 = true
   /\ List.length l1 < 64 /\ List.length l2 < 64 /\ List.length l3 < 64)
  /\ (fst (get_module_revision s) = Ok (mkModuleRevision (x00 :: l1) (x00 :: l2) (x00 :: l3))
      /\ rx (snd (get_module_revision s)) = feed crlf).
Proof.
  split.
  { repeat split; try reflexivity; simpl; lia. }
  apply (get_module_revision_succeeds (list_byte_of_string "AT version:1.1.0.0")
           (list_byte_of_string "SDK version:1.5.4")
           (list_byte_of_string "compile time:Jun 20 2016") (feed crlf));
    solve [reflexivity | simpl; lia].
Defined.

Lemma ascii_is_utf8_witness :
  Forall (fun b => (Byte.to_N b < 128)%N) (list_byte_of_string ("OK" ++ crlf))
  /\ utf8_valid (list_byte_of_string ("OK" ++ crlf)) = true.
Proof.
  assert (H : Forall (fun b => (Byte.to_N b < 128)%N) (list_byte_of_string ("OK" ++ crlf)))
    by (repeat constructor).
  split; [exact H | exact (ascii_is_utf8 _ H)].
Defined.

Lemma utf8_valid_app_witness :
  utf8_valid [xc3; xa9] = true
  /\ utf8_valid ([xc3; xa9] ++ [xff]) = utf8_valid [xff]
  /\ utf8_valid ([xc3; xa9] ++ [xe2; x82; xac]) = utf8_valid [xe2; x82; xac].
Proof.
  split; [reflexivity|].
  split; apply utf8_valid_app; reflexivity.
Defined.

Lemma read_line_rejects_invalid_utf8_witness :
  let s := @start unit unit (map RxByte ([xc3] ++ [CR; LF]) ++ feed "OK") in
  (rx s = map RxByte ([xc3] ++ [CR; LF]) ++ feed "OK" /\ no_crlf [xc3] = true
   /\ utf8_valid [xc3] = false /\ List.length [xc3] < 64)
  /\ ((exists cause, fst (read_line 64 s) = Err (Other (Utf8 cause)))
      /\ rx (snd (read_line 64 s)) = feed "OK").
Proof.
  split; [split; [reflexivity | split; [reflexivity | split; [reflexivity | simpl; lia]]]|].
  apply (read_line_rejects_invalid_utf8 64 [xc3] (feed "OK")
           (start (map RxByte ([xc3] ++ [CR; LF]) ++ feed "OK")));
    [reflexivity | reflexivity | reflexivity | simpl; lia].
Defined.

Lemma read_line_read_error_witness :
  let s := @mkSt unit unit (feed "ab" ++ RxErr tt :: feed ("c" ++ crlf)) [] [] [] in
  (rx s = map RxByte (list_byte_of_string "ab") ++ RxErr tt :: feed ("c" ++ crlf)
   /\ no_crlf (list_byte_of_string "ab") = true
   /\ List.length (list_byte_of_string "ab") <= 64)
  /\ (fst (read_line 64 s) = Err (Other (UartRead tt))
      /\ rx (snd (read_line 64 s)) = feed ("c" ++ crlf)).
Proof.
  split; [split; [reflexivity | split; [reflexivity | simpl; lia]]|].
  apply (read_line_read_error 64 (list_byte_of_string "ab") tt (feed ("c" ++ crlf))
           (mkSt (feed "ab" ++ RxErr tt :: feed ("c" ++ crlf)) [] [] []));
    [reflexivity | reflexivity | simpl; lia].
Defined.
